(** * mdtoimage: the block normaliser, the height estimator and the
      highlighter fallback, embedded from the TypeScript sources.

    - [src/parser/index.ts]      : [normalizeAST], [normalizeNode],
                                   [normalizeInlineContent]
    - [src/renderer/index.ts]    : [getHeadingSize], [renderMarkdownToImage]
                                   and its height decision
    - [src/watermark/index.tsx]  : [normalizeWatermark]
    - [src/highlighter/index.ts] : [tokenizeCode], [tokensToSatori]
    - [src/components/index.tsx] : the line list of [renderCodeBlock]

    Numbers.  The numbers of the estimator are exact rationals; the one
    non-finite value it can compute from finite inputs, [+Infinity] (a
    division by a zero [charsPerLine]), is a constructor of its own in
    [num].  The sums of the loop are exact, where the code adds doubles;
    what depends on the rounding of a sum (the watermark reserve) is stated
    over [reserveWatermark] and [commit], with the rounding as a parameter.
    A height given by the caller is a [JsNumber], which has the infinities
    and [NaN].  Integer fields of the syntax tree (heading depth, list
    start) are in [Z]. *)

From Stdlib Require Import List String Ascii ZArith QArith Qround Lia Lqa Bool.
Import ListNotations.

Set Warnings "-register-all".

Open Scope string_scope.
Open Scope Z_scope.

(* ================================================================== *)
(** ** JavaScript truthiness and the [||] default idiom *)

Module Js.

(** [s] used as a condition: the empty string is falsy. *)
Definition truthy_string (s : string) : bool :=
  match s with EmptyString => false | String _ _ => true end.

(** [x || d] on an optional string: [undefined], [null] and [""] give [d]. *)
Definition or_string (x : option string) (d : string) : string :=
  match x with
  | Some s => if truthy_string s then s else d
  | None => d
  end.

(** [x || undefined] on an optional string. *)
Definition or_undefined (x : option string) : option string :=
  match x with
  | Some s => if truthy_string s then Some s else None
  | None => None
  end.

(** [x || d] on an optional integer: [undefined] and [0] give [d]. *)
Definition or_Z (x : option Z) (d : Z) : Z :=
  match x with
  | Some v => if v =? 0 then d else v
  | None => d
  end.

(** [x || d] on an optional rational number. *)
Definition or_Q (x : option Q) (d : Q) : Q :=
  match x with
  | Some v => if Qeq_bool v 0 then d else v
  | None => d
  end.

(** [x || false] on an optional boolean. *)
Definition or_false (x : option bool) : bool :=
  match x with Some b => b | None => false end.

(** [s.split(sep)] for a one-character separator: the pieces between the
    separators, always at least one piece. *)
Fixpoint split (sep : ascii) (s : string) : list string :=
  match s with
  | EmptyString => [EmptyString]
  | String c rest =>
      if Ascii.eqb c sep then EmptyString :: split sep rest
      else match split sep rest with
           | piece :: pieces => String c piece :: pieces
           | [] => [String c EmptyString]
           end
  end.

(** The line feed character, ['\n']. *)
Definition LF : ascii := Ascii.ascii_of_nat 10.

End Js.

(* ================================================================== *)
(** ** The syntax tree (mdast) and the normalised block model *)

(** An mdast node as the normaliser reads it ([node as any]): the [type] tag
    and the fields any of the cases looks at.  Absent [children] and an empty
    [children] array are the same to the code ([x.children || []]). *)
Inductive Node : Type :=
  mkNode {
    n_type : string;
    n_value : string;
    n_depth : option Z;
    n_lang : option string;
    n_ordered : option bool;
    n_start : option Z;
    n_checked : option bool;
    n_url : string;
    n_title : option string;
    n_alt : option string;
    n_children : list Node
  }.

(** [interface NormalizedBlock] of src/parser/index.ts. *)
Inductive NormalizedBlock : Type :=
  mkBlock {
    type : string;
    content : option string;
    children : option (list NormalizedBlock);
    level : option Z;
    ordered : option bool;
    start : option Z;
    language : option string;
    url : option string;
    title : option string;
    alt : option string;
    checked : option bool;
    depth : option Z
  }.

(** The object literal [{ type: ty }]: every other field absent. *)
Definition block (ty : string) : NormalizedBlock :=
  {| type := ty; content := None; children := None; level := None;
     ordered := None; start := None; language := None; url := None;
     title := None; alt := None; checked := None; depth := None |}.

Definition textBlock (s : string) : NormalizedBlock :=
  {| type := "text"; content := Some s; children := None; level := None;
     ordered := None; start := None; language := None; url := None;
     title := None; alt := None; checked := None; depth := None |}.

Definition inlineCodeBlock (s : string) : NormalizedBlock :=
  {| type := "inlineCode"; content := Some s; children := None; level := None;
     ordered := None; start := None; language := None; url := None;
     title := None; alt := None; checked := None; depth := None |}.

Definition containerBlock (ty : string) (cs : list NormalizedBlock)
  : NormalizedBlock :=
  {| type := ty; content := None; children := Some cs; level := None;
     ordered := None; start := None; language := None; url := None;
     title := None; alt := None; checked := None; depth := None |}.

Definition linkBlock (u : string) (t : option string)
  (cs : list NormalizedBlock) : NormalizedBlock :=
  {| type := "link"; content := None; children := Some cs; level := None;
     ordered := None; start := None; language := None; url := Some u;
     title := t; alt := None; checked := None; depth := None |}.

Definition imageBlock (u : string) (a t : option string) : NormalizedBlock :=
  {| type := "image"; content := None; children := None; level := None;
     ordered := None; start := None; language := None; url := Some u;
     title := t; alt := a; checked := None; depth := None |}.

Definition headingBlock (d : option Z) (cs : list NormalizedBlock)
  : NormalizedBlock :=
  {| type := "heading"; content := None; children := Some cs; level := d;
     ordered := None; start := None; language := None; url := None;
     title := None; alt := None; checked := None; depth := None |}.

Definition codeBlock (v : string) (lang : option string) : NormalizedBlock :=
  {| type := "code"; content := Some v; children := None; level := None;
     ordered := None; start := None; language := lang; url := None;
     title := None; alt := None; checked := None; depth := None |}.

Definition listBlock (o : bool) (s : Z) (items : list NormalizedBlock)
  : NormalizedBlock :=
  {| type := "list"; content := None; children := Some items; level := None;
     ordered := Some o; start := Some s; language := None; url := None;
     title := None; alt := None; checked := None; depth := None |}.

Definition listItemBlock (d : Z) (c : option bool)
  (cs : list NormalizedBlock) : NormalizedBlock :=
  {| type := "listItem"; content := None; children := Some cs; level := None;
     ordered := None; start := None; language := None; url := None;
     title := None; alt := None; checked := c; depth := Some d |}.

(* ================================================================== *)
(** ** src/parser/index.ts *)

(** The two mutable locals of [normalizeInlineContent]. *)
Record InlineState : Type :=
  mkInline { result : list NormalizedBlock; currentText : string }.

(** [if (currentText) { result.push({type:'text', ...}); currentText = '' }] *)
Definition flush (st : InlineState) : InlineState :=
  if Js.truthy_string (currentText st)
  then mkInline (result st ++ [textBlock (currentText st)]) ""
  else st.

Definition push (b : NormalizedBlock) (st : InlineState) : InlineState :=
  mkInline (result st ++ [b]) (currentText st).

(** The trailing [if (currentText) result.push(...)] and [return result]. *)
Definition finish (st : InlineState) : list NormalizedBlock :=
  if Js.truthy_string (currentText st)
  then result st ++ [textBlock (currentText st)]
  else result st.

(** One iteration of the [for (const node of nodes)] loop: the [switch] on
    [node.type].  The recursive calls of the strong, emphasis and link cases
    run the whole function on the node's children, with fresh locals. *)
Fixpoint inlineStep (st : InlineState) (node : Node) : InlineState :=
  let ty := n_type node in
  if (ty =? "text")%string then
    mkInline (result st) (currentText st ++ n_value node)
  else if (ty =? "inlineCode")%string then
    push (inlineCodeBlock (n_value node)) (flush st)
  else if (ty =? "strong")%string then
    push (containerBlock "strong"
            (finish (fold_left inlineStep (n_children node) (mkInline [] ""))))
         (flush st)
  else if (ty =? "emphasis")%string then
    push (containerBlock "emphasis"
            (finish (fold_left inlineStep (n_children node) (mkInline [] ""))))
         (flush st)
  else if (ty =? "link")%string then
    push (linkBlock (n_url node) (n_title node)
            (finish (fold_left inlineStep (n_children node) (mkInline [] ""))))
         (flush st)
  else if (ty =? "image")%string then
    push (imageBlock (n_url node) (n_alt node) (n_title node)) (flush st)
  else if (ty =? "break")%string then
    mkInline (result st) (currentText st ++ String Js.LF "")
  else st.

Definition normalizeInlineContent (nodes : list Node) : list NormalizedBlock :=
  finish (fold_left inlineStep nodes (mkInline [] "")).

(** [normalizeNode]: the [switch] on [node.type] at block level.  Every case
    pushes at most one block.  The blockquote and list-item cases call
    [normalizeAST] on a synthetic root [{ type: 'root', children }], whose
    root branch is the loop [for child: blocks.push(...normalizeNode(child))],
    written here as [flat_map normalizeNode] (see [normalizeAST_root]). *)
Fixpoint normalizeNode (node : Node) : list NormalizedBlock :=
  let ty := n_type node in
  if (ty =? "heading")%string then
    [headingBlock (n_depth node) (normalizeInlineContent (n_children node))]
  else if (ty =? "paragraph")%string then
    [containerBlock "paragraph" (normalizeInlineContent (n_children node))]
  else if (ty =? "code")%string then
    [codeBlock (n_value node) (Js.or_undefined (n_lang node))]
  else if (ty =? "blockquote")%string then
    [containerBlock "blockquote" (flat_map normalizeNode (n_children node))]
  else if (ty =? "list")%string then
    [listBlock (Js.or_false (n_ordered node)) (Js.or_Z (n_start node) 1)
       (map (fun item =>
               listItemBlock (Js.or_Z (n_depth item) 0) (n_checked item)
                 (flat_map normalizeNode (n_children item)))
            (n_children node))]
  else if (ty =? "thematicBreak")%string then
    [block "thematicBreak"]
  else if (ty =? "html")%string then
    []
  else
    [].

Definition normalizeAST (node : Node) : list NormalizedBlock :=
  if (n_type node =? "root")%string
  then flat_map normalizeNode (n_children node)
  else normalizeNode node.

(** Node literals, for examples: the fields a node kind does not have are
    absent. *)
Definition node (ty : string) (cs : list Node) : Node :=
  {| n_type := ty; n_value := ""; n_depth := None; n_lang := None;
     n_ordered := None; n_start := None; n_checked := None; n_url := "";
     n_title := None; n_alt := None; n_children := cs |}.

Definition literal (ty value : string) : Node :=
  {| n_type := ty; n_value := value; n_depth := None; n_lang := None;
     n_ordered := None; n_start := None; n_checked := None; n_url := "";
     n_title := None; n_alt := None; n_children := [] |}.

Definition heading (d : Z) (cs : list Node) : Node :=
  {| n_type := "heading"; n_value := ""; n_depth := Some d; n_lang := None;
     n_ordered := None; n_start := None; n_checked := None; n_url := "";
     n_title := None; n_alt := None; n_children := cs |}.

Definition fenced (lang : option string) (value : string) : Node :=
  {| n_type := "code"; n_value := value; n_depth := None; n_lang := lang;
     n_ordered := None; n_start := None; n_checked := None; n_url := "";
     n_title := None; n_alt := None; n_children := [] |}.

Definition root (cs : list Node) : Node := node "root" cs.

(* ================================================================== *)
(** ** Properties of a normalised forest, at every nesting level *)

Definition isText (b : NormalizedBlock) : bool := (type b =? "text")%string.

(** [P] holds of the children of [b], and so on below. *)
Fixpoint deep (P : list NormalizedBlock -> bool) (b : NormalizedBlock)
  : bool :=
  match children b with
  | Some cs => P cs && forallb (deep P) cs
  | None => true
  end.

(** [P] holds of every sibling list of the forest: the top level and the
    children of every block, at every depth. *)
Definition everyLevel (P : list NormalizedBlock -> bool)
  (forest : list NormalizedBlock) : bool :=
  P forest && forallb (deep P) forest.

(** No two neighbours of a sibling list are both Text blocks. *)
Fixpoint noAdjacentText (l : list NormalizedBlock) : bool :=
  match l with
  | a :: (b :: _) as tl => negb (isText a && isText b) && noAdjacentText tl
  | _ => true
  end.

Fixpoint lastIsText (l : list NormalizedBlock) : bool :=
  match l with
  | [] => false
  | [a] => isText a
  | _ :: tl => lastIsText tl
  end.

(** A Text block carries a non-empty string. *)
Definition textNonEmpty (b : NormalizedBlock) : bool :=
  if isText b
  then match content b with Some s => Js.truthy_string s | None => false end
  else true.

(** A Heading block carries a level from 1 to 6. *)
Definition headingLevelOk (b : NormalizedBlock) : bool :=
  if (type b =? "heading")%string
  then match level b with Some l => (1 <=? l) && (l <=? 6) | None => false end
  else true.

(** Every heading node of the syntax tree has a depth from 1 to 6, as the
    mdast type of a heading requires. *)
Fixpoint headingDepthsOk (n : Node) : bool :=
  (if (n_type n =? "heading")%string
   then match n_depth n with
        | Some d => (1 <=? d) && (d <=? 6)
        | None => false
        end
   else true)
  && forallb headingDepthsOk (n_children n).

(* ================================================================== *)
(** ** Calls that may throw *)

Inductive Outcome (A : Type) : Type :=
| Returns (a : A)
| Throws (error : string).
Arguments Returns {A} a.
Arguments Throws {A} error.

Definition bind {A B : Type} (m : Outcome A) (k : A -> Outcome B)
  : Outcome B :=
  match m with
  | Returns a => k a
  | Throws e => Throws e
  end.

(** [try { body } catch (error) { handler }] *)
Definition try_catch {A : Type} (body : Outcome A)
  (handler : string -> Outcome A) : Outcome A :=
  match body with
  | Returns a => Returns a
  | Throws e => handler e
  end.

Notation "x <- m ;; k" := (bind m (fun x => k))
  (at level 61, m at next level, right associativity).

(* ================================================================== *)
(** ** src/types.ts, src/themes/index.ts, src/watermark/index.tsx *)

Record ThemeColors : Type :=
  mkColors { background : string; text : string;
             codeBackground : string; codeText : string }.

Record ThemeSpacing : Type :=
  mkSpacing { padding : Q; gap : Q; blockquotePadding : Q; codePadding : Q }.

(** The heading, blockquote and link colours and the font table play no part
    in what follows and are left out. *)
Record Theme : Type :=
  mkTheme { colors : ThemeColors; spacing : ThemeSpacing }.

Definition lightTheme : Theme :=
  {| colors := {| background := "#ffffff"; text := "#1a1a1a";
                  codeBackground := "#f5f5f5"; codeText := "#1a1a1a" |};
     spacing := {| padding := 40; gap := 24; blockquotePadding := 20;
                   codePadding := 16 |} |}.

Definition darkTheme : Theme :=
  {| colors := {| background := "#1a1a1a"; text := "#e0e0e0";
                  codeBackground := "#2a2a2a"; codeText := "#e0e0e0" |};
     spacing := {| padding := 40; gap := 24; blockquotePadding := 20;
                   codePadding := 16 |} |}.

Inductive ThemeMode : Type := light | dark.

(** [theme?: 'light' | 'dark' | Theme] *)
Inductive ThemeOption : Type :=
| Named (m : ThemeMode)
| Custom (t : Theme).

Definition getTheme (name : ThemeOption) : Theme :=
  match name with
  | Custom t => t
  | Named dark => darkTheme
  | Named light => lightTheme
  end.

Record WatermarkConfig : Type :=
  mkWatermark { enabled : option bool; wm_text : option string;
                opacity : option Q; fontSize : option Q;
                wm_padding : option Q; color : option string }.

(** [watermark?: boolean | WatermarkConfig] *)
Inductive WatermarkOption : Type :=
| WUndefined
| WBool (b : bool)
| WConfig (c : WatermarkConfig).

Definition DEFAULT_WATERMARK : WatermarkConfig :=
  {| enabled := Some true;
     wm_text := Some "Generated with @lollopanta/mdtoimage";
     opacity := Some (1 # 2); fontSize := Some 12%Q;
     wm_padding := Some 16%Q; color := Some "#888888" |}.

(** A field of [{ ...DEFAULT_WATERMARK, ...config }]. *)
Definition spread {A : Type} (over base : option A) : option A :=
  match over with Some v => Some v | None => base end.

(** [null] is [None]. *)
Definition normalizeWatermark (config : WatermarkOption) (theme : Theme)
  : option WatermarkConfig :=
  match config with
  | WBool false => None
  | WBool true | WUndefined =>
      let watermarkColor :=
        if ((background (colors theme) =? "#ffffff")
            || (background (colors theme) =? "#fff"))%string
        then "#999999" else "#cccccc" in
      Some {| enabled := enabled DEFAULT_WATERMARK;
              wm_text := wm_text DEFAULT_WATERMARK;
              opacity := opacity DEFAULT_WATERMARK;
              fontSize := fontSize DEFAULT_WATERMARK;
              wm_padding := wm_padding DEFAULT_WATERMARK;
              color := Some watermarkColor |}
  | WConfig c =>
      Some {| enabled :=
                Some (match enabled c with Some false => false | _ => true end);
              wm_text := spread (wm_text c) (wm_text DEFAULT_WATERMARK);
              opacity := spread (opacity c) (opacity DEFAULT_WATERMARK);
              fontSize := spread (fontSize c) (fontSize DEFAULT_WATERMARK);
              wm_padding := spread (wm_padding c) (wm_padding DEFAULT_WATERMARK);
              color := Some (Js.or_string (color c) (text (colors theme))) |}
  end.

(** A JavaScript [number] as a caller can pass it: a finite value, an
    infinity, or [NaN] (what [parseInt] gives the command line for a height
    that is not a number). *)
Inductive JsNumber : Type :=
| Finite (q : Q)
| PosInfinity
| NegInfinity
| NaN.

Coercion Finite : Q >-> JsNumber.

(** [n] used as a condition: [0] and [NaN] are falsy. *)
Definition truthy_number (n : JsNumber) : bool :=
  match n with
  | Finite q => negb (Qeq_bool q 0)
  | PosInfinity | NegInfinity => true
  | NaN => false
  end.

(** [format?: 'png' | 'svg' | 'base64'] *)
Inductive Format : Type := png | svg | base64.

(** [interface RenderOptions] of src/types.ts, but for the font overrides
    (see [loadFontsForSatori] in the pipeline below). *)
Record RenderOptions : Type :=
  mkOptions { input : string; output : option string; width : option Q;
              height : option JsNumber; format : option Format;
              theme : option ThemeOption; watermark : WatermarkOption;
              maxWidth : option Q }.

(* ================================================================== *)
(** ** src/renderer/index.ts: the height of the canvas *)

(** A number the estimator computes: finite, or [+Infinity]. *)
Inductive num : Type :=
| Fin (q : Q)
| PInf.

Definition num_add (a b : num) : num :=
  match a, b with
  | Fin x, Fin y => Fin (x + y)
  | _, _ => PInf
  end.

(** [a * k] for a positive finite [k]. *)
Definition num_scale (a : num) (k : Q) : num :=
  match a with
  | Fin x => Fin (x * k)
  | PInf => PInf
  end.

(** [Math.min(Math.ceil(a), cap)] *)
Definition ceilMin (a : num) (cap : Z) : Z :=
  match a with
  | Fin x => Z.min (Qceiling x) cap
  | PInf => cap
  end.

(** [sizes[level] || 16] *)
Definition getHeadingSize (level : Z) : Q :=
  if level =? 1 then 36
  else if level =? 2 then 30
  else if level =? 3 then 24
  else if level =? 4 then 20
  else if level =? 5 then 18
  else if level =? 6 then 16
  else 16.

(** [Math.max(1, Math.ceil(textLength / charsPerLine))] for a positive
    [textLength]: the quotient by a zero [charsPerLine] is [+Infinity]. *)
Definition paragraphLines (textLength charsPerLine : Z) : num :=
  if charsPerLine =? 0 then PInf
  else Fin (inject_Z
              (Z.max 1 (Qceiling (inject_Z textLength / inject_Z charsPerLine)))).

(** [block.content?.length || 100]; the length is that of the model's
    string, one unit per character. *)
Definition textLength (b : NormalizedBlock) : Z :=
  Js.or_Z (option_map (fun s => Z.of_nat (String.length s)) (content b)) 100.

(** What one block adds to [estimatedHeight]: the [if]/[else if] chain of
    the loop body. *)
Definition blockHeight (th : Theme) (maxContentWidth : Q)
  (b : NormalizedBlock) : num :=
  let sp := spacing th in
  if ((type b =? "code")%string
      && match content b with Some c => Js.truthy_string c | None => false end)
  then
    let codeLines :=
      Z.of_nat (List.length (Js.split Js.LF (Js.or_string (content b) ""))) in
    Fin (inject_Z codeLines * 20 + codePadding sp * 2 + gap sp)
  else if (type b =? "heading")%string then
    Fin (getHeadingSize (Js.or_Z (level b) 1) * (12 # 10) + gap sp * (1 # 2))
  else if (type b =? "paragraph")%string then
    let charsPerLine := Qfloor (maxContentWidth / 9) in
    num_add (num_scale (paragraphLines (textLength b) charsPerLine) 24)
            (Fin (gap sp))
  else if (type b =? "list")%string then
    let listItems :=
      match children b with
      | Some cs => Z.of_nat (List.length cs)
      | None => 0%Z
      end in
    Fin (inject_Z listItems * 28 + gap sp)
  else if (type b =? "blockquote")%string then
    Fin (60 + gap sp)
  else
    Fin (30 + gap sp).

(** [estimatedHeight] when the loop and the watermark test are done. *)
Definition estimatedHeight (th : Theme) (maxContentWidth : Q)
  (wm : option WatermarkConfig) (blocks : list NormalizedBlock) : num :=
  let afterLoop :=
    fold_left (fun acc b => num_add acc (blockHeight th maxContentWidth b))
              blocks (Fin (padding (spacing th) * 2)) in
  match wm with
  | Some _ => num_add afterLoop (Fin 40)
  | None => afterLoop
  end.

(** [Math.max(400, Math.min(Math.ceil(estimatedHeight), 20000))] *)
Definition autoHeight (th : Theme) (maxContentWidth : Q)
  (wm : option WatermarkConfig) (blocks : list NormalizedBlock) : Z :=
  Z.max 400 (ceilMin (estimatedHeight th maxContentWidth wm blocks) 20000).

Definition optionsTheme (o : RenderOptions) : Theme :=
  getTheme (match theme o with Some t => t | None => Named light end).

Definition optionsWidth (o : RenderOptions) : Q := Js.or_Q (width o) 1200.

Definition optionsMaxContentWidth (o : RenderOptions) : Q :=
  Js.or_Q (maxWidth o)
          (optionsWidth o - padding (spacing (optionsTheme o)) * 2).

(** [finalHeight]: the branch [if (options.height)] and its [else]. *)
Definition finalHeight (o : RenderOptions) (blocks : list NormalizedBlock)
  : JsNumber :=
  match height o with
  | Some h =>
      if truthy_number h
      then h
      else Finite (inject_Z
                     (autoHeight (optionsTheme o) (optionsMaxContentWidth o)
                        (normalizeWatermark (watermark o) (optionsTheme o))
                        blocks))
  | None =>
      Finite (inject_Z
                (autoHeight (optionsTheme o) (optionsMaxContentWidth o)
                   (normalizeWatermark (watermark o) (optionsTheme o))
                   blocks))
  end.

(* ================================================================== *)
(** ** src/highlighter/index.ts and the code block of
       src/components/index.tsx *)

Record ThemedToken : Type :=
  mkToken { tk_content : string; tk_color : option string }.

(** What [hl.codeToTokens] hands back: an object with a [tokens] property, or
    the array itself. *)
Inductive TokensResult : Type :=
| WithTokens (tokens : list (list ThemedToken))
| Bare (tokens : list (list ThemedToken)).

(** [code.split('\n').map(line => [{ content: line, color: undefined }])] *)
Definition plainTokens (code : string) : list (list ThemedToken) :=
  map (fun line => [mkToken line None]) (Js.split Js.LF code).

Record Span : Type :=
  mkSpan { sp_children : string; sp_color : option string }.

Definition tokensToSatori (tokens : list ThemedToken) (defaultColor : string)
  : list Span :=
  map (fun token =>
         mkSpan (tk_content token)
                (Some (Js.or_string (tk_color token) defaultColor)))
      tokens.

(** The children of a line's [div]: spans on the highlighted path, a string
    on the fallback path of [renderCodeBlock]. *)
Inductive LineChildren : Type :=
| Spans (spans : list Span)
| Plain (line : string).

Record LineDiv : Type :=
  mkLine { ld_color : option string; ld_children : LineChildren }.

(** [theme === 'light' ? 'github-light' : 'github-dark'] *)
Definition themeName (theme : ThemeMode) : string :=
  match theme with
  | light => "github-light"
  | dark => "github-dark"
  end.

Section Highlighter.

(** The Shiki instance; both calls may throw. *)
Variable Highlighter : Type.
Variable initHighlighter : ThemeMode -> Outcome Highlighter.
Variable codeToTokens :
  Highlighter -> string -> string -> string -> Outcome TokensResult.

Definition tokenizeCode (code : string) (language : option string)
  (theme : ThemeMode) : Outcome (list (list ThemedToken)) :=
  match Js.or_undefined language with
  | None => Returns (plainTokens code)
  | Some lang =>
      try_catch
        (hl <- initHighlighter theme ;;
         result <- codeToTokens hl code lang (themeName theme) ;;
         match result with
         | WithTokens tokens => Returns tokens
         | Bare tokens => Returns tokens
         end)
        (fun _ => Returns (plainTokens code))
  end.

(** The [lines] array of [renderCodeBlock]. *)
Definition renderCodeBlock (b : NormalizedBlock) (th : Theme)
  (themeMode : ThemeMode) : Outcome (list LineDiv) :=
  let content := Js.or_string (content b) "" in
  try_catch
    (tokens <- tokenizeCode content (language b) themeMode ;;
     Returns
       (map (fun lineTokens =>
               let lineElements :=
                 tokensToSatori lineTokens (codeText (colors th)) in
               mkLine None
                 (Spans (match lineElements with
                         | [] => [mkSpan " " None]
                         | _ => lineElements
                         end)))
            tokens))
    (fun _ =>
       Returns
         (map (fun line =>
                 mkLine (Some (codeText (colors th)))
                        (Plain (if Js.truthy_string line then line else " ")))
              (Js.split Js.LF content))).

End Highlighter.

(* ================================================================== *)
(** ** The words of the specification, for comparison *)

(** [clamp(x, lo, hi)] *)
Definition clamp (x lo hi : Z) : Z :=
  if x <? lo then lo else if hi <? x then hi else x.

(** The kinds [normalizeInlineContent] has a case for. *)
Definition knownInline (ty : string) : bool :=
  existsb (String.eqb ty)
    ["text"; "inlineCode"; "strong"; "emphasis"; "link"; "image"; "break"].

(** A block-level sibling list: [P] below each block, and no Text block. *)
Definition good (P : list NormalizedBlock -> bool)
  (l : list NormalizedBlock) : Prop :=
  forallb (deep P) l = true /\ forallb (fun b => negb (isText b)) l = true.

(** The kinds of the blocks the inline loop pushes besides Text. *)
Definition inlineKind (b : NormalizedBlock) : bool :=
  existsb (String.eqb (type b))
    ["inlineCode"; "strong"; "emphasis"; "link"; "image"].

(** The invariant of the inline loop: [I] of [result], and [P] at every level
    below the blocks pushed so far. *)
Definition Inv (P I : list NormalizedBlock -> bool) (st : InlineState)
  : Prop :=
  I (result st) = true /\ forallb (deep P) (result st) = true.

(** The loop invariant behind the merge: [result] has no two Text neighbours
    and does not end in a Text block. *)
Definition mergeInv (l : list NormalizedBlock) : bool :=
  noAdjacentText l && negb (lastIsText l).

(** The text a run of text and break nodes adds to [currentText]. *)
Definition runText (nodes : list Node) : string :=
  String.concat ""
    (map (fun n => if (n_type n =? "text")%string then n_value n
                   else String Js.LF "")
         nodes).

Definition textOrBreak (n : Node) : bool :=
  ((n_type n =? "text") || (n_type n =? "break"))%string.

(** [charsPerLine = floor(contentWidthPx / 9)], and the wrapped line count of
    [chars] characters, at least one line. *)
Definition specParagraphLines (chars : Z) (contentWidthPx : Q) : Z :=
  Z.max 1 (Qceiling (inject_Z chars / inject_Z (Qfloor (contentWidthPx / 9)))).

(** [lineCount x 24 + blockGap] *)
Definition specParagraphHeight (chars : Z) (contentWidthPx : Q) (th : Theme)
  : Q :=
  inject_Z (specParagraphLines chars contentWidthPx) * 24 + gap (spacing th).

(* ================================================================== *)
(** ** Sample inputs *)

Definition txt (s : string) : Node := literal "text" s.
Definition br : Node := node "break" [].
Definition para (cs : list Node) : Node := node "paragraph" cs.

(** Render options with everything but the width, the height and the
    watermark left to the defaults. *)
Definition options (w : option Q) (h : option JsNumber)
  (wm : WatermarkOption) : RenderOptions :=
  {| input := "doc.md"; output := None; width := w; height := h;
     format := None; theme := None; watermark := wm; maxWidth := None |}.

(** A highlighter that knows one language and throws for any other. *)
Definition sampleCodeToTokens (_ : unit) (code lang themeName : string)
  : Outcome TokensResult :=
  if (lang =? "javascript")%string
  then Returns (WithTokens [[mkToken code (Some "#d73a49")]])
  else Throws "Language not found".

(* ================================================================== *)
(** ** The shape of a normalised forest *)

Definition hasKind (kinds : list string) (b : NormalizedBlock) : bool :=
  existsb (String.eqb (type b)) kinds.

(** The [type] values [normalizeNode] writes, the ones
    [normalizeInlineContent] writes, and the case labels of the [switch] of
    [renderBlock] in src/components/index.tsx. *)
Definition blockKinds : list string :=
  ["heading"; "paragraph"; "code"; "blockquote"; "list"; "thematicBreak"].

Definition inlineKinds : list string :=
  ["text"; "inlineCode"; "strong"; "emphasis"; "link"; "image"].

Definition renderBlockCases : list string :=
  ["heading"; "paragraph"; "code"; "inlineCode"; "blockquote"; "list";
   "listItem"; "thematicBreak"; "text"; "strong"; "emphasis"; "link";
   "image"].

Definition childrenOf (kinds : list string) (b : NormalizedBlock) : bool :=
  match children b with
  | Some cs => forallb (hasKind kinds) cs
  | None => false
  end.

Definition leaf (b : NormalizedBlock) : bool :=
  match children b with Some _ => false | None => true end.

Definition hasContent (b : NormalizedBlock) : bool :=
  match content b with Some _ => true | None => false end.

(** What each kind of block carries, and the kinds of its children. *)
Definition shape (b : NormalizedBlock) : bool :=
  let ty := type b in
  if ((ty =? "heading") || (ty =? "paragraph"))%string then
    childrenOf inlineKinds b
  else if (ty =? "code")%string then
    leaf b && hasContent b
    && match language b with Some l => Js.truthy_string l | None => true end
  else if ((ty =? "blockquote") || (ty =? "listItem"))%string then
    childrenOf blockKinds b
  else if (ty =? "list")%string then
    childrenOf ["listItem"] b
    && match ordered b with Some _ => true | None => false end
    && match start b with Some s => negb (s =? 0) | None => false end
  else if (ty =? "thematicBreak")%string then
    leaf b
  else if (ty =? "text")%string then
    leaf b && textNonEmpty b
  else if (ty =? "inlineCode")%string then
    leaf b && hasContent b
  else if ((ty =? "strong") || (ty =? "emphasis") || (ty =? "link"))%string
  then childrenOf inlineKinds b
  else if (ty =? "image")%string then
    leaf b
  else false.

(** The node kinds [normalizeNode] has a block for. *)
Definition isBlockNode (n : Node) : bool :=
  existsb (String.eqb (n_type n)) blockKinds.

(** The text of an inline node sequence, in document order: text and inline
    code values, a newline for a break, the text of the children of strong,
    emphasis and link nodes; nothing for an image or an unknown node. *)
Fixpoint nodeText (n : Node) : string :=
  let ty := n_type n in
  if ((ty =? "text") || (ty =? "inlineCode"))%string then n_value n
  else if (ty =? "break")%string then String Js.LF ""
  else if ((ty =? "strong") || (ty =? "emphasis") || (ty =? "link"))%string
  then String.concat "" (map nodeText (n_children n))
  else "".

(** The text of a block: its [content], then the text of its children. *)
Fixpoint blockText (b : NormalizedBlock) : string :=
  (Js.or_string (content b) ""
   ++ match children b with
      | Some cs => String.concat "" (map blockText cs)
      | None => ""
      end)%string.

Definition forestText (l : list NormalizedBlock) : string :=
  String.concat "" (map blockText l).

(** The five inline constructs that push a block of their own. *)
Definition isConstruct (n : Node) : bool :=
  existsb (String.eqb (n_type n))
    ["inlineCode"; "strong"; "emphasis"; "link"; "image"].

(* ================================================================== *)
(** ** Induction on a normalised block *)

Section BlockInduction.

Variable P : NormalizedBlock -> Prop.
Hypothesis step : forall b,
  match children b with Some cs => Forall P cs | None => True end -> P b.

Fixpoint NormalizedBlock_nested_ind (b : NormalizedBlock) : P b :=
  match b with
  | mkBlock ty c ch lv o s la u t a k d =>
      step (mkBlock ty c ch lv o s la u t a k d)
        (match ch as ch0
               return match ch0 with
                      | Some cs => Forall P cs
                      | None => True
                      end
         with
         | Some cs =>
             (fix all (l : list NormalizedBlock) : Forall P l :=
                match l with
                | [] => Forall_nil P
                | x :: r =>
                    Forall_cons x (NormalizedBlock_nested_ind x) (all r)
                end) cs
         | None => I
         end)
  end.

End BlockInduction.

(* ================================================================== *)
(** ** Order on the numbers of the estimator *)

(** [a <= b], with [+Infinity] on top. *)
Definition num_le (a b : num) : Prop :=
  match a, b with
  | Fin x, Fin y => (x <= y)%Q
  | _, PInf => True
  | PInf, Fin _ => False
  end.

Definition isParagraph (b : NormalizedBlock) : bool :=
  (type b =? "paragraph")%string.

(* ================================================================== *)
(** ** src/watermark/index.tsx: the overlay *)

(** A field of a [Required<...>] object, which is always present. *)
Definition the {A : Type} (absent : A) (x : option A) : A :=
  match x with Some v => v | None => absent end.

(** The [style] and [children] of the overlay [div] that vary; position,
    pointer events, z-index and white-space are constants. *)
Record WatermarkElement : Type :=
  mkOverlay { we_bottom : Q; we_right : Q; we_fontSize : Q;
              we_color : string; we_opacity : Q; we_fontFamily : string;
              we_children : string }.

(** [renderWatermark]; [null] is [None].  [bodyFontName] stands for
    [theme.fonts.body.name], the font table being left out of [Theme]. *)
Definition renderWatermark (wm : WatermarkConfig) (width : Q)
  (height : JsNumber) (theme : Theme) (bodyFontName : option string) : option WatermarkElement :=
  if negb (Js.or_false (enabled wm)) then None
  else
    let fontSize' :=
      Js.or_Q (fontSize wm) (the 0%Q (fontSize DEFAULT_WATERMARK)) in
    let padding' :=
      Js.or_Q (wm_padding wm) (the 0%Q (wm_padding DEFAULT_WATERMARK)) in
    let opacity' :=
      match opacity wm with
      | Some v => v
      | None => the 0%Q (opacity DEFAULT_WATERMARK)
      end in
    let color' := Js.or_string (color wm) (text (colors theme)) in
    let text' := Js.or_string (wm_text wm) (the "" (wm_text DEFAULT_WATERMARK)) in
    Some {| we_bottom := padding'; we_right := padding';
            we_fontSize := fontSize'; we_color := color';
            we_opacity := opacity';
            we_fontFamily := Js.or_string bodyFontName "Inter";
            we_children := text' |}.

(** [themeMode] of [renderMarkdownToImage]: the highlighter theme. *)
Definition themeMode (o : RenderOptions) : ThemeMode :=
  match theme o with
  | Some (Named m) => m
  | Some (Custom t) =>
      if (background (colors t) =? background (colors darkTheme))%string
      then dark else light
  | None => light
  end.

(* ================================================================== *)
(** ** src/highlighter/index.ts: the cached highlighter
    The four module variables are a record passed along; a promise is the
    outcome it settles to, and its [then] callback has run when the caller
    has the outcome.  Calls are taken one after the other. *)

Module Cache.

Record State (H : Type) : Type :=
  mkState { highlighterLight : option H;
            highlighterDark : option H;
            highlighterLightPromise : option (Outcome H);
            highlighterDarkPromise : option (Outcome H) }.
Arguments mkState {H}.
Arguments highlighterLight {H}.
Arguments highlighterDark {H}.
Arguments highlighterLightPromise {H}.
Arguments highlighterDarkPromise {H}.

Definition empty {H : Type} : State H := mkState None None None None.

Definition langs : list string :=
  ["javascript"; "typescript"; "jsx"; "tsx"; "json"; "python"; "bash";
   "shell"; "html"; "css"; "markdown"; "yaml"; "toml"; "go"; "rust"; "java";
   "c"; "cpp"].

(** [createHighlighter({ themes, langs })] is the first argument. *)
Definition initHighlighter {H : Type}
  (createHighlighter : list string -> list string -> Outcome H)
  (st : State H) (theme : ThemeMode) : State H * Outcome H :=
  match theme with
  | light =>
      match highlighterLight st with
      | Some hl => (st, Returns hl)
      | None =>
          match highlighterLightPromise st with
          | Some p => (st, p)
          | None =>
              let p := createHighlighter ["github-light"] langs in
              (mkState (match p with
                        | Returns hl => Some hl
                        | Throws _ => highlighterLight st
                        end)
                       (highlighterDark st) (Some p)
                       (highlighterDarkPromise st),
               p)
          end
      end
  | dark =>
      match highlighterDark st with
      | Some hl => (st, Returns hl)
      | None =>
          match highlighterDarkPromise st with
          | Some p => (st, p)
          | None =>
              let p := createHighlighter ["github-dark"] langs in
              (mkState (highlighterLight st)
                       (match p with
                        | Returns hl => Some hl
                        | Throws _ => highlighterDark st
                        end)
                       (highlighterLightPromise st) (Some p),
               p)
          end
      end
  end.

End Cache.

(* ================================================================== *)
(** ** The font loader
    The version with the network fallback and the rounded weight, which
    stands after the renderer in src/renderer/index.ts (lines 199 to 343);
    src/fonts/loader.ts holds an earlier one, with the same
    [normalizeFontConfig]. *)

Module Fonts.

Inductive FontStyle : Type := normal | italic.

Record FontConfig : Type :=
  mkConfig { path : string; name : option string; weight : option Q;
             style : option FontStyle }.

(** [string | FontConfig] *)
Inductive FontInput : Type :=
| FPath (p : string)
| FConfig (c : FontConfig).

Record LoadedFont (Buffer : Type) : Type :=
  mkLoaded { lf_name : string; lf_data : Buffer; lf_weight : Z;
             lf_style : FontStyle }.
Arguments mkLoaded {Buffer}.
Arguments lf_name {Buffer}.
Arguments lf_data {Buffer}.
Arguments lf_weight {Buffer}.
Arguments lf_style {Buffer}.

(** What [fetch] resolves to: [ok], and the body. *)
Record Response (Buffer : Type) : Type :=
  mkResponse { ok : bool; arrayBuffer : Buffer }.
Arguments mkResponse {Buffer}.
Arguments ok {Buffer}.
Arguments arrayBuffer {Buffer}.

(** [Math.round(x)]: the nearest integer, halves upwards. *)
Definition round (x : Q) : Z := Qfloor (x + (1 # 2)).

(** [config.weight ? Math.max(100, Math.min(900,
     Math.round(config.weight / 100) * 100)) : 400] *)
Definition satoriWeight (w : option Q) : Z :=
  match w with
  | Some v =>
      if Qeq_bool v 0 then 400
      else Z.max 100 (Z.min 900 (round (v / 100) * 100))
  | None => 400
  end.

Definition normalizeFontConfig (input : option FontInput)
  (fallback : FontConfig) : FontConfig :=
  match input with
  | None => fallback
  | Some (FPath p) =>
      if Js.truthy_string p
      then {| path := p; name := name fallback; weight := weight fallback;
              style := style fallback |}
      else fallback
  | Some (FConfig c) =>
      {| path := path c; name := spread (name c) (name fallback);
         weight := spread (weight c) (weight fallback);
         style := spread (style c) (style fallback) |}
  end.

Definition noFonts : string :=
  "No fonts available. Please provide at least one font file (TTF or OTF format) using --font-body option, or ensure internet access for fallback fonts.".

Definition gstatic400 : string :=
  "https://fonts.gstatic.com/s/roboto/v30/KFOmCnqEu92Fr1Mu4mxP.ttf".
Definition gstatic700 : string :=
  "https://fonts.gstatic.com/s/roboto/v30/KFOlCnqEu92Fr1MmWUlfBBc4.ttf".
Definition jsdelivr400 : string :=
  "https://cdn.jsdelivr.net/npm/@fontsource/roboto@5.0.8/files/roboto-latin-400-normal.woff".
Definition jsdelivr700 : string :=
  "https://cdn.jsdelivr.net/npm/@fontsource/roboto@5.0.8/files/roboto-latin-700-normal.woff".

Section Loader.

Variable Buffer : Type.
Variable readFileSync : string -> Outcome Buffer.
Variable fetch : string -> Outcome (Response Buffer).

Definition loadFont (config : FontConfig) : Outcome (LoadedFont Buffer) :=
  fontData <- readFileSync (path config) ;;
  Returns {| lf_name := Js.or_string (name config) "Font";
             lf_data := fontData;
             lf_weight := satoriWeight (weight config);
             lf_style := the normal (style config) |}.

Definition loadFontFromUrl (url name' : string) (weight' : Z)
  (style' : FontStyle) : Outcome (LoadedFont Buffer) :=
  response <- fetch url ;;
  if negb (ok response)
  then Throws ("Failed to fetch font from " ++ url)
  else Returns {| lf_name := name'; lf_data := arrayBuffer response;
                  lf_weight := weight'; lf_style := style' |}.

(** [try { if (font.path) loaded.push(loadFont(font)) } catch { warn }] *)
Definition tryLocal (font : FontConfig) (loaded : list (LoadedFont Buffer))
  : list (LoadedFont Buffer) :=
  if Js.truthy_string (path font)
  then match loadFont font with
       | Returns f => (loaded ++ [f])%list
       | Throws _ => loaded
       end
  else loaded.

(** The body of one [try] of the fallback: fetch and push the regular face,
    then the bold one.  What was pushed before a throw stays in [loaded]. *)
Definition pushRoboto (regular bold : string)
  (loaded : list (LoadedFont Buffer))
  : list (LoadedFont Buffer) * Outcome unit :=
  match loadFontFromUrl regular "Roboto" 400 normal with
  | Throws e => (loaded, Throws e)
  | Returns r =>
      match loadFontFromUrl bold "Roboto" 700 normal with
      | Throws e => ((loaded ++ [r])%list, Throws e)
      | Returns b => (((loaded ++ [r]) ++ [b])%list, Returns tt)
      end
  end.

Definition loadFontsForSatori (body heading code : FontConfig)
  : Outcome (list (LoadedFont Buffer)) :=
  let loaded := tryLocal code (tryLocal heading (tryLocal body [])) in
  match loaded with
  | _ :: _ => Returns loaded
  | [] =>
      match pushRoboto gstatic400 gstatic700 loaded with
      | (loaded1, Returns _) => Returns loaded1
      | (loaded1, Throws _) =>
          match pushRoboto jsdelivr400 jsdelivr700 loaded1 with
          | (loaded2, Returns _) => Returns loaded2
          | (_, Throws _) => Throws noFonts
          end
      end
  end.

End Loader.

End Fonts.

(** What the estimator reads of a block: its kind, its text payload, its
    level and the number of its children. *)
Definition sameOutline (b b' : NormalizedBlock) : Prop :=
  type b = type b' /\ content b = content b' /\ level b = level b'
  /\ option_map (@List.length NormalizedBlock) (children b)
     = option_map (@List.length NormalizedBlock) (children b').

(* ================================================================== *)
(** ** src/renderer/index.ts: the watermark reserve and the commit, in
       doubles
    [estimatedHeight] above adds exact rationals.  The last two steps of the
    estimate are written here over any accumulated value and with the
    rounding of the one addition as a parameter [fl] (the identity for exact
    arithmetic, round-to-nearest for doubles), so that what is proved of them
    does not lean on exact sums. *)





(* ================================================================== *)
(** ** src/renderer/index.ts: [renderMarkdownToImage], step by step
    Every call that the function awaits or that may throw is a parameter
    with an [Outcome]: reading the file, the Markdown parser, the font
    loader (with the font table it is given, which [Theme] leaves out),
    [renderBlock] of src/components/index.tsx, satori and the three uses of
    sharp. *)

Record RenderResult (Buffer : Type) : Type :=
  mkResult { r_buffer : option Buffer; r_svg : option string;
             r_base64 : option string; r_width : Q; r_height : JsNumber }.
Arguments mkResult {Buffer}.
Arguments r_buffer {Buffer}.
Arguments r_svg {Buffer}.
Arguments r_base64 {Buffer}.
Arguments r_width {Buffer}.
Arguments r_height {Buffer}.

(** The root [div] of [createJsxTree]: the style entries that vary and the
    children left by [filter(Boolean)]. *)
Record JsxTree (Jsx : Type) : Type :=
  mkTree { jt_height : JsNumber; jt_backgroundColor : string;
           jt_padding : Q; jt_children : list (Jsx + WatermarkElement) }.
Arguments mkTree {Jsx}.
Arguments jt_height {Jsx}.
Arguments jt_backgroundColor {Jsx}.
Arguments jt_padding {Jsx}.
Arguments jt_children {Jsx}.

(** [await Promise.all(l.map(f))]: the results in order, or a rejection of
    one of the calls (here the first in list order). *)
Fixpoint mapM {A B : Type} (f : A -> Outcome B) (l : list A)
  : Outcome (list B) :=
  match l with
  | [] => Returns []
  | a :: r =>
      b <- f a ;;
      bs <- mapM f r ;;
      Returns (b :: bs)
  end.

Section Pipeline.

Variables SatoriFonts Jsx Buffer : Type.
Variable readFileSync : string -> Outcome string.
Variable parseMarkdown : string -> Outcome Node.
(** [loadFontsForSatori(theme.fonts)], and [theme.fonts.body.name]. *)
Variable loadFontsForSatori : RenderOptions -> Outcome SatoriFonts.
Variable bodyFontName : RenderOptions -> option string.
Variable renderBlock :
  NormalizedBlock -> Theme -> Q -> ThemeMode -> Outcome Jsx.
(** A rendered block used as a condition, for [filter(Boolean)]. *)
Variable jsxTruthy : Jsx -> bool.
Variable satori :
  JsxTree Jsx -> Q -> JsNumber -> SatoriFonts -> Outcome string.
(** [sharp(Buffer.from(svg)).png().toBuffer()], [buffer.toString('base64')]
    and [sharp(Buffer.from(svg)).png().toFile(path)]. *)
Variable toPng : string -> Outcome Buffer.
Variable toBase64 : Buffer -> string.
Variable toFile : string -> string -> Outcome unit.

(** [try { markdown = readFileSync(input) } catch { markdown = input }] *)
Definition loadMarkdown (o : RenderOptions) : Outcome string :=
  try_catch (readFileSync (input o)) (fun _ => Returns (input o)).

Definition createJsxTree (o : RenderOptions) (contentBlocks : list Jsx)
  (h : JsNumber) : JsxTree Jsx :=
  let theme := optionsTheme o in
  {| jt_height := h;
     jt_backgroundColor := background (colors theme);
     jt_padding := padding (spacing theme);
     jt_children :=
       (map inl (filter jsxTruthy contentBlocks)
        ++ match normalizeWatermark (watermark o) theme with
           | Some wm =>
               match renderWatermark wm (optionsWidth o) h theme
                       (bodyFontName o) with
               | Some el => [inr el]
               | None => []
               end
           | None => []
           end)%list |}.

(** The function from the parse on, for a Markdown text. *)
Definition renderLoaded (o : RenderOptions) (markdown : string)
  : Outcome (RenderResult Buffer) :=
  ast <- parseMarkdown markdown ;;
  let blocks := normalizeAST ast in
  satoriFonts <- loadFontsForSatori o ;;
  contentBlocks <-
    mapM (fun b => renderBlock b (optionsTheme o) (optionsMaxContentWidth o)
                     (themeMode o))
         blocks ;;
  let h := finalHeight o blocks in
  finalSvg <- satori (createJsxTree o contentBlocks h) (optionsWidth o) h
                satoriFonts ;;
  match format o with
  | Some svg =>
      Returns (mkResult None (Some finalSvg) None (optionsWidth o) h)
  | Some base64 =>
      pngBuffer <- toPng finalSvg ;;
      Returns (mkResult None None (Some (toBase64 pngBuffer))
                 (optionsWidth o) h)
  | Some png | None =>
      pngBuffer <- toPng finalSvg ;;
      saved <- match output o with
               | Some path =>
                   if Js.truthy_string path then toFile finalSvg path
                   else Returns tt
               | None => Returns tt
               end ;;
      Returns (mkResult (Some pngBuffer) None None (optionsWidth o) h)
  end.

Definition renderMarkdownToImage (o : RenderOptions)
  : Outcome (RenderResult Buffer) :=
  markdown <- loadMarkdown o ;;
  renderLoaded o markdown.

End Pipeline.

(* ================================================================== *)
(** ** Induction on a syntax tree *)

Section NodeInduction.

Variable P : Node -> Prop.
Hypothesis step : forall n, Forall P (n_children n) -> P n.

Fixpoint Node_nested_ind (n : Node) : P n :=
  match n with
  | mkNode ty v d la o s c u t a cs =>
      step (mkNode ty v d la o s c u t a cs)
        ((fix all (l : list Node) : Forall P l :=
            match l with
            | [] => Forall_nil P
            | x :: r => Forall_cons x (Node_nested_ind x) (all r)
            end) cs)
  end.

End NodeInduction.

(* ================================================================== *)
(** ** Unfolding the normaliser *)

Lemma inlineStep_eq (st : InlineState) (node : Node) :
  inlineStep st node =
  let ty := n_type node in
  if (ty =? "text")%string then
    mkInline (result st) (currentText st ++ n_value node)
  else if (ty =? "inlineCode")%string then
    push (inlineCodeBlock (n_value node)) (flush st)
  else if (ty =? "strong")%string then
    push (containerBlock "strong" (normalizeInlineContent (n_children node)))
         (flush st)
  else if (ty =? "emphasis")%string then
    push (containerBlock "emphasis" (normalizeInlineContent (n_children node)))
         (flush st)
  else if (ty =? "link")%string then
    push (linkBlock (n_url node) (n_title node)
            (normalizeInlineContent (n_children node)))
         (flush st)
  else if (ty =? "image")%string then
    push (imageBlock (n_url node) (n_alt node) (n_title node)) (flush st)
  else if (ty =? "break")%string then
    mkInline (result st) (currentText st ++ String Js.LF "")
  else st.
Proof. destruct node; reflexivity. Qed.

Lemma normalizeNode_eq (node : Node) :
  normalizeNode node =
  let ty := n_type node in
  if (ty =? "heading")%string then
    [headingBlock (n_depth node) (normalizeInlineContent (n_children node))]
  else if (ty =? "paragraph")%string then
    [containerBlock "paragraph" (normalizeInlineContent (n_children node))]
  else if (ty =? "code")%string then
    [codeBlock (n_value node) (Js.or_undefined (n_lang node))]
  else if (ty =? "blockquote")%string then
    [containerBlock "blockquote" (flat_map normalizeNode (n_children node))]
  else if (ty =? "list")%string then
    [listBlock (Js.or_false (n_ordered node)) (Js.or_Z (n_start node) 1)
       (map (fun item =>
               listItemBlock (Js.or_Z (n_depth item) 0) (n_checked item)
                 (flat_map normalizeNode (n_children item)))
            (n_children node))]
  else if (ty =? "thematicBreak")%string then
    [block "thematicBreak"]
  else [].
Proof.
  destruct node; cbn [n_type n_children normalizeNode].
  repeat match goal with |- context [if ?b then _ else _] => destruct b end;
    reflexivity.
Qed.

(** The recursive call on a synthetic root is the loop over its children. *)
Lemma normalizeAST_root (cs : list Node) :
  normalizeAST (root cs) = flat_map normalizeNode cs.
Proof. reflexivity. Qed.

(** The loop, one iteration at a time. *)
Lemma normalizeInlineContent_app (pre post : list Node) :
  normalizeInlineContent (pre ++ post) =
  finish (fold_left inlineStep post
            (fold_left inlineStep pre (mkInline [] ""))).
Proof. unfold normalizeInlineContent. now rewrite fold_left_app. Qed.

(* ================================================================== *)
(** ** Sibling lists built by appending *)

Lemma noAdjacentText_snoc (l : list NormalizedBlock) (x : NormalizedBlock) :
  noAdjacentText (l ++ [x]) =
  noAdjacentText l && negb (lastIsText l && isText x).
Proof.
  induction l as [|a [|b r] IH]; cbn [app noAdjacentText lastIsText] in *.
  - reflexivity.
  - now rewrite Bool.andb_true_r.
  - rewrite IH. now rewrite Bool.andb_assoc.
Qed.

Lemma lastIsText_snoc (l : list NormalizedBlock) (x : NormalizedBlock) :
  lastIsText (l ++ [x]) = isText x.
Proof.
  induction l as [|a [|b r] IH]; cbn [app lastIsText] in *; auto.
Qed.

Lemma forallb_snoc {A : Type} (f : A -> bool) (l : list A) (x : A) :
  forallb f (l ++ [x]) = forallb f l && f x.
Proof. rewrite forallb_app. cbn. now rewrite Bool.andb_true_r. Qed.

Lemma forallb_flat_map {A B : Type} (p : B -> bool) (f : A -> list B)
  (l : list A) :
  Forall (fun a => forallb p (f a) = true) l ->
  forallb p (flat_map f l) = true.
Proof.
  induction 1 as [|a r Ha _ IH]; cbn; [reflexivity|].
  now rewrite forallb_app, Ha, IH.
Qed.

(* ================================================================== *)
(** ** A property of every sibling list of the normalised forest
    The loop of [normalizeInlineContent] keeps an invariant [I] of [result];
    [P] follows from it when the loop ends.  [P] at every level of the output
    then follows by induction on the syntax tree. *)

Section EveryLevel.

Variables P I : list NormalizedBlock -> bool.

Hypothesis I_nil : I [] = true.
Hypothesis I_push : forall l b,
  I l = true -> inlineKind b = true -> I (l ++ [b]) = true.
Hypothesis I_text_push : forall l s b,
  I l = true -> Js.truthy_string s = true -> inlineKind b = true ->
  I ((l ++ [textBlock s]) ++ [b]) = true.
Hypothesis I_P : forall l, I l = true -> P l = true.
Hypothesis I_text_P : forall l s,
  I l = true -> Js.truthy_string s = true -> P (l ++ [textBlock s]) = true.

Lemma Inv_init : Inv P I (mkInline [] "").
Proof. split; [apply I_nil | reflexivity]. Qed.

Lemma Inv_flush_push st b :
  Inv P I st -> inlineKind b = true -> deep P b = true ->
  Inv P I (push b (flush st)).
Proof.
  intros [HI HD] Hk Hb. unfold Inv, push, flush.
  destruct (Js.truthy_string (currentText st)) eqn:E; cbn [result]; split.
  - now apply I_text_push.
  - now rewrite !forallb_snoc, HD, Hb.
  - now apply I_push.
  - now rewrite forallb_snoc, HD, Hb.
Qed.

Lemma Inv_finish st : Inv P I st -> everyLevel P (finish st) = true.
Proof.
  intros [HI HD]. unfold everyLevel, finish.
  destruct (Js.truthy_string (currentText st)) eqn:E.
  - rewrite I_text_P, forallb_snoc, HD by assumption. reflexivity.
  - now rewrite I_P, HD.
Qed.

Lemma Inv_fold nodes :
  Forall (fun n => forall st, Inv P I st -> Inv P I (inlineStep st n)) nodes ->
  forall st, Inv P I st -> Inv P I (fold_left inlineStep nodes st).
Proof.
  induction 1 as [|n r Hn _ IH]; intros st Hst; cbn [fold_left]; auto.
Qed.

Lemma Inv_inlineStep n : forall st, Inv P I st -> Inv P I (inlineStep st n).
Proof.
  induction n as [n IH] using Node_nested_ind. intros st Hst.
  assert (Hkids : everyLevel P (normalizeInlineContent (n_children n)) = true)
    by (apply Inv_finish, Inv_fold; [exact IH | exact Inv_init]).
  rewrite inlineStep_eq. cbv zeta.
  repeat match goal with
         | |- context [if ?b then _ else _] => destruct b eqn:?
         end;
    try exact Hst;
    try (apply Inv_flush_push; [exact Hst | reflexivity | first [reflexivity | exact Hkids]]).
Qed.

(** [P] at every level of what the inline normaliser returns. *)
Lemma everyLevel_inline nodes :
  everyLevel P (normalizeInlineContent nodes) = true.
Proof.
  apply Inv_finish, Inv_fold; [|exact Inv_init].
  apply Forall_forall. intros n _. apply Inv_inlineStep.
Qed.

(** Block level: no sibling list built by [normalizeNode] holds a Text
    block, and [P] is to hold of every such list. *)
Hypothesis P_blocks : forall l,
  forallb (fun b => negb (isText b)) l = true -> P l = true.

Lemma good_flat_map cs :
  Forall (fun n => good P (normalizeNode n)) cs ->
  good P (flat_map normalizeNode cs).
Proof.
  intro H. split; apply forallb_flat_map;
    (eapply Forall_impl; [|exact H]); intros n [H1 H2]; assumption.
Qed.

Lemma good_everyLevel l : good P l -> everyLevel P l = true.
Proof.
  intros [H1 H2]. unfold everyLevel. now rewrite P_blocks, H1.
Qed.

Lemma good_normalizeNode n :
  good P (normalizeNode n) /\ good P (flat_map normalizeNode (n_children n)).
Proof.
  induction n as [n IH] using Node_nested_ind.
  assert (Hkids : good P (flat_map normalizeNode (n_children n))).
  { apply good_flat_map. eapply Forall_impl; [|exact IH].
    intros a [Ha _]. exact Ha. }
  split; [|exact Hkids].
  pose proof (everyLevel_inline (n_children n)) as Hin.
  rewrite normalizeNode_eq. cbv zeta.
  repeat match goal with
         | |- context [if ?b then _ else _] => destruct b eqn:?
         end;
    split; cbn [forallb]; rewrite ?Bool.andb_true_r;
    try reflexivity; try exact Hin.
  - apply (good_everyLevel _ Hkids).
  - cbn [deep children listBlock]. apply andb_true_intro. split.
    + apply P_blocks, forallb_forall. intros b Hb.
      apply in_map_iff in Hb as [item [<- _]]. reflexivity.
    + apply forallb_forall. intros b Hb.
      apply in_map_iff in Hb as [item [<- Hitem]].
      rewrite Forall_forall in IH. destruct (IH item Hitem) as [_ Hgood].
      apply (good_everyLevel _ Hgood).
Qed.

(** [P] at every level of the normalised forest of any syntax tree. *)
Lemma everyLevel_normalizeAST tree :
  everyLevel P (normalizeAST tree) = true.
Proof.
  unfold normalizeAST.
  destruct (n_type tree =? "root")%string; apply good_everyLevel;
    apply good_normalizeNode.
Qed.

End EveryLevel.

(* ================================================================== *)
(** ** Strings *)

Lemma append_nil_r (s : string) : (s ++ "")%string = s.
Proof. induction s as [|c s IH]; cbn; [reflexivity | now rewrite IH]. Qed.

Lemma append_assoc (a b c : string) :
  ((a ++ b) ++ c)%string = (a ++ (b ++ c))%string.
Proof. induction a as [|x a IH]; cbn; [reflexivity | now rewrite IH]. Qed.

Lemma concat_empty_cons (x : string) (l : list string) :
  String.concat "" (x :: l) = (x ++ String.concat "" l)%string.
Proof. destruct l; cbn; [now rewrite append_nil_r | reflexivity]. Qed.

Lemma runText_cons (n : Node) (nodes : list Node) :
  runText (n :: nodes) =
  ((if (n_type n =? "text")%string then n_value n else String Js.LF "")
     ++ runText nodes)%string.
Proof. unfold runText. cbn [map]. apply concat_empty_cons. Qed.

(* ================================================================== *)
(** ** The inline loop on particular nodes *)

Lemma inlineKind_not_text (b : NormalizedBlock) :
  inlineKind b = true -> isText b = false.
Proof.
  unfold inlineKind, isText. cbn [existsb].
  destruct (String.eqb_spec (type b) "text") as [->|]; [cbn; discriminate|].
  reflexivity.
Qed.

(** A text or break node only grows [currentText]. *)
Lemma inlineStep_textOrBreak (st : InlineState) (n : Node) :
  textOrBreak n = true ->
  inlineStep st n =
  mkInline (result st)
    (currentText st ++
     (if (n_type n =? "text")%string then n_value n else String Js.LF "")).
Proof.
  unfold textOrBreak. rewrite inlineStep_eq. cbv zeta.
  destruct (String.eqb_spec (n_type n) "text") as [_|_]; [reflexivity|].
  destruct (String.eqb_spec (n_type n) "break") as [->|]; [|discriminate].
  reflexivity.
Qed.

Lemma fold_textOrBreak (nodes : list Node) :
  forallb textOrBreak nodes = true ->
  forall st,
    fold_left inlineStep nodes st =
    mkInline (result st) (currentText st ++ runText nodes).
Proof.
  induction nodes as [|n r IH]; intros H st; cbn [fold_left].
  - unfold runText. cbn. rewrite append_nil_r. now destruct st.
  - cbn [forallb] in H. apply andb_prop in H as [Hn Hr].
    rewrite (inlineStep_textOrBreak _ _ Hn), (IH Hr). cbn [result currentText].
    now rewrite runText_cons, append_assoc.
Qed.

(** A node of a kind the [switch] has no case for leaves both locals as they
    are. *)
Lemma inlineStep_unknown (st : InlineState) (n : Node) :
  knownInline (n_type n) = false -> inlineStep st n = st.
Proof.
  unfold knownInline. cbn [existsb]. intro H. rewrite inlineStep_eq. cbv zeta.
  repeat match goal with
         | |- context [if (?a =? ?b)%string then _ else _] =>
             destruct (a =? b)%string; [cbn in H; discriminate|]
         end.
  reflexivity.
Qed.

(* ================================================================== *)
(** ** Claims about the normaliser *)

Lemma noAdjacentText_no_text (l : list NormalizedBlock) :
  forallb (fun b => negb (isText b)) l = true -> noAdjacentText l = true.
Proof.
  induction l as [|a [|b r] IH]; cbn [forallb noAdjacentText] in *; auto.
  intro H. apply andb_prop in H as [Ha H]. rewrite (IH H).
  apply Bool.negb_true_iff in Ha. now rewrite Ha.
Qed.

Lemma textNonEmpty_no_text (l : list NormalizedBlock) :
  forallb (fun b => negb (isText b)) l = true ->
  forallb textNonEmpty l = true.
Proof.
  intro H. apply forallb_forall. intros b Hb.
  rewrite forallb_forall in H. specialize (H b Hb).
  unfold textNonEmpty. apply Bool.negb_true_iff in H. now rewrite H.
Qed.

Lemma textNonEmpty_inlineKind (b : NormalizedBlock) :
  inlineKind b = true -> textNonEmpty b = true.
Proof.
  intro H. unfold textNonEmpty. now rewrite (inlineKind_not_text _ H).
Qed.

Lemma headingLevelOk_inlineKind (b : NormalizedBlock) :
  inlineKind b = true -> headingLevelOk b = true.
Proof.
  unfold inlineKind, headingLevelOk. cbn [existsb].
  destruct (String.eqb_spec (type b) "heading") as [->|]; [cbn; discriminate|].
  reflexivity.
Qed.

Lemma mergeInv_push l b :
  mergeInv l = true -> inlineKind b = true -> mergeInv (l ++ [b]) = true.
Proof.
  unfold mergeInv. intros H Hb. apply andb_prop in H as [H1 H2].
  apply inlineKind_not_text in Hb.
  rewrite noAdjacentText_snoc, lastIsText_snoc, H1, Hb.
  now rewrite Bool.andb_false_r.
Qed.

Lemma mergeInv_text l s :
  mergeInv l = true -> noAdjacentText (l ++ [textBlock s]) = true.
Proof.
  unfold mergeInv. intro H. apply andb_prop in H as [H1 H2].
  apply Bool.negb_true_iff in H2.
  now rewrite noAdjacentText_snoc, H1, H2.
Qed.

Lemma mergeInv_text_push l s b :
  mergeInv l = true -> inlineKind b = true ->
  mergeInv ((l ++ [textBlock s]) ++ [b]) = true.
Proof.
  intros H Hb. unfold mergeInv.
  rewrite noAdjacentText_snoc, !lastIsText_snoc, (mergeInv_text _ _ H).
  apply inlineKind_not_text in Hb. rewrite Hb.
  now rewrite Bool.andb_false_r.
Qed.

(** C10.  Every Text block of the normalised forest of any syntax tree, at
    any nesting level, carries a non-empty string, and so does every Text
    block the inline normaliser returns. *)
Theorem normalize_text_non_empty :
  (forall tree,
     everyLevel (forallb textNonEmpty) (normalizeAST tree) = true)
  /\ (forall nodes,
        everyLevel (forallb textNonEmpty) (normalizeInlineContent nodes)
        = true).
Proof.
  split; intros.
  - apply everyLevel_normalizeAST with (I := forallb textNonEmpty).
    + reflexivity.
    + intros l b H Hb. now rewrite forallb_snoc, H, textNonEmpty_inlineKind.
    + intros l s b H Hs Hb.
      rewrite !forallb_snoc, H, (textNonEmpty_inlineKind _ Hb).
      cbn. now rewrite Hs.
    + auto.
    + intros l s H Hs. rewrite forallb_snoc, H. cbn. now rewrite Hs.
    + apply textNonEmpty_no_text.
  - apply everyLevel_inline with (I := forallb textNonEmpty).
    + reflexivity.
    + intros l b H Hb. now rewrite forallb_snoc, H, textNonEmpty_inlineKind.
    + intros l s b H Hs Hb.
      rewrite !forallb_snoc, H, (textNonEmpty_inlineKind _ Hb).
      cbn. now rewrite Hs.
    + auto.
    + intros l s H Hs. rewrite forallb_snoc, H. cbn. now rewrite Hs.
Qed.

(** C9.  An inline node of a kind other than text, inlineCode, strong,
    emphasis, link, image and break leaves the loop state as it is: it adds
    no block and does not flush the pending text.  Dropping it from the
    sequence changes nothing in the output, and text nodes on both sides of
    it end up in one Text block. *)
Theorem unknown_inline_is_skipped (n : Node) :
  knownInline (n_type n) = false ->
  (forall st, inlineStep st n = st)
  /\ (forall pre post,
        normalizeInlineContent (pre ++ n :: post) =
        normalizeInlineContent (pre ++ post))
  /\ (forall a b,
        normalizeInlineContent [txt a; n; txt b] =
        if Js.truthy_string (a ++ b) then [textBlock (a ++ b)] else []).
Proof.
  intro H. repeat split.
  - intro st. now apply inlineStep_unknown.
  - intros pre post. rewrite !normalizeInlineContent_app. cbn [fold_left].
    now rewrite inlineStep_unknown.
  - intros a b. unfold normalizeInlineContent. cbn [fold_left].
    rewrite (inlineStep_unknown _ n H). reflexivity.
Qed.

Lemma unknown_inline_is_skipped_witness :
  normalizeInlineContent [txt "a"; node "html" []; txt "b"] = [textBlock "ab"].
Proof.
  destruct (unknown_inline_is_skipped (node "html" [])) as [_ [_ H]].
  - reflexivity.
  - apply (H "a" "b").
Defined.

(* ------------------------------------------------------------------ *)
(** *** Heading levels *)

Lemma headingDepthsOk_eq (n : Node) :
  headingDepthsOk n =
  (if (n_type n =? "heading")%string
   then match n_depth n with
        | Some d => (1 <=? d) && (d <=? 6)
        | None => false
        end
   else true)
  && forallb headingDepthsOk (n_children n).
Proof. destruct n; reflexivity. Qed.

Lemma everyLevel_app (q : NormalizedBlock -> bool)
  (l1 l2 : list NormalizedBlock) :
  everyLevel (forallb q) l1 = true -> everyLevel (forallb q) l2 = true ->
  everyLevel (forallb q) (l1 ++ l2) = true.
Proof.
  unfold everyLevel. intros H1 H2.
  apply andb_prop in H1 as [A1 B1]. apply andb_prop in H2 as [A2 B2].
  now rewrite !forallb_app, A1, A2, B1, B2.
Qed.

Lemma everyLevel_singleton (q : NormalizedBlock -> bool)
  (b : NormalizedBlock) :
  q b = true -> deep (forallb q) b = true ->
  everyLevel (forallb q) [b] = true.
Proof. unfold everyLevel. cbn [forallb]. now intros -> ->. Qed.

Lemma everyLevel_flat_map (q : NormalizedBlock -> bool)
  (f : Node -> list NormalizedBlock) (cs : list Node) :
  Forall (fun n => everyLevel (forallb q) (f n) = true) cs ->
  everyLevel (forallb q) (flat_map f cs) = true.
Proof.
  induction 1 as [|n r Hn _ IH]; cbn [flat_map]; [reflexivity|].
  now apply everyLevel_app.
Qed.

Lemma headingLevels_inline (nodes : list Node) :
  everyLevel (forallb headingLevelOk) (normalizeInlineContent nodes) = true.
Proof.
  apply everyLevel_inline with (I := forallb headingLevelOk).
  - reflexivity.
  - intros l b H Hb. now rewrite forallb_snoc, H, headingLevelOk_inlineKind.
  - intros l s b H _ Hb.
    now rewrite !forallb_snoc, H, (headingLevelOk_inlineKind _ Hb).
  - auto.
  - intros l s H _. now rewrite forallb_snoc, H.
Qed.

Lemma headingLevels_normalizeNode (n : Node) :
  headingDepthsOk n = true ->
  everyLevel (forallb headingLevelOk) (normalizeNode n) = true
  /\ everyLevel (forallb headingLevelOk)
       (flat_map normalizeNode (n_children n)) = true.
Proof.
  induction n as [n IH] using Node_nested_ind. intro Hok.
  rewrite headingDepthsOk_eq in Hok. apply andb_prop in Hok as [Hhead Hkids].
  rewrite forallb_forall in Hkids. rewrite Forall_forall in IH.
  assert (Hflat : everyLevel (forallb headingLevelOk)
                    (flat_map normalizeNode (n_children n)) = true).
  { apply everyLevel_flat_map, Forall_forall. intros c Hc.
    now apply IH; [|apply Hkids]. }
  split; [|exact Hflat].
  pose proof (headingLevels_inline (n_children n)) as Hin.
  rewrite normalizeNode_eq. cbv zeta.
  destruct (n_type n =? "heading")%string.
  { destruct (n_depth n) as [d|]; [|discriminate].
    apply everyLevel_singleton; [exact Hhead | exact Hin]. }
  destruct (n_type n =? "paragraph")%string.
  { apply everyLevel_singleton; [reflexivity | exact Hin]. }
  destruct (n_type n =? "code")%string; [reflexivity|].
  destruct (n_type n =? "blockquote")%string.
  { apply everyLevel_singleton; [reflexivity | exact Hflat]. }
  destruct (n_type n =? "list")%string.
  { apply everyLevel_singleton; [reflexivity|].
    cbn [deep children listBlock]. apply andb_true_intro. split.
    - apply forallb_forall. intros b Hb.
      apply in_map_iff in Hb as [item [<- _]]. reflexivity.
    - apply forallb_forall. intros b Hb.
      apply in_map_iff in Hb as [item [<- Hitem]].
      destruct (IH item Hitem (Hkids item Hitem)) as [_ Hgood].
      exact Hgood. }
  destruct (n_type n =? "thematicBreak")%string; reflexivity.
Qed.

(** C1, as the code has it.  A heading node becomes one Heading block whose
    level is the node's depth, unchanged; when every heading of the syntax
    tree has a depth from 1 to 6, every Heading block of the normalised
    forest, at any nesting level, has a level from 1 to 6. *)
Theorem heading_level_is_source_depth :
  (forall n,
     n_type n = "heading" ->
     normalizeNode n =
     [headingBlock (n_depth n) (normalizeInlineContent (n_children n))])
  /\ (forall tree,
        headingDepthsOk tree = true ->
        everyLevel (forallb headingLevelOk) (normalizeAST tree) = true).
Proof.
  split.
  - intros n H. rewrite normalizeNode_eq. cbv zeta. now rewrite H.
  - intros tree H. unfold normalizeAST.
    destruct (n_type tree =? "root")%string;
      now apply headingLevels_normalizeNode.
Qed.

Lemma heading_level_is_source_depth_witness :
  normalizeNode (heading 2 [txt "Features"]) =
    [headingBlock (Some 2) [textBlock "Features"]]
  /\ everyLevel (forallb headingLevelOk)
       (normalizeAST (root [heading 2 [txt "Features"];
                            node "blockquote" [heading 6 [txt "Note"]]]))
     = true.
Proof.
  destruct heading_level_is_source_depth as [Hcopy Hrange]. split.
  - apply (Hcopy (heading 2 [txt "Features"])). reflexivity.
  - apply Hrange. reflexivity.
Defined.

(** C1 as stated fails: a heading of depth 7 is normalised to a Heading block
    of level 7. *)
Lemma heading_level_not_clamped :
  normalizeAST (root [heading 7 [txt "Deep"]]) =
    [headingBlock (Some 7) [textBlock "Deep"]]
  /\ everyLevel (forallb headingLevelOk)
       (normalizeAST (root [heading 7 [txt "Deep"]])) = false.
Proof. split; reflexivity. Qed.

(* ================================================================== *)
(** ** Claims about the height of the canvas *)


Lemma clamp_max_min (x : Z) : Z.max 400 (Z.min x 20000) = clamp x 400 20000.
Proof.
  unfold clamp.
  destruct (Z.ltb_spec x 400); [lia|]. destruct (Z.ltb_spec 20000 x); lia.
Qed.

Lemma autoHeight_bounds th mcw wm blocks :
  400 <= autoHeight th mcw wm blocks <= 20000.
Proof.
  unfold autoHeight.
  destruct (estimatedHeight th mcw wm blocks); cbn [ceilMin]; lia.
Qed.

(** C5.  In auto mode the committed height is the estimate, rounded up and
    clamped to [400, 20000]; an infinite estimate gives 20000.  It lies in
    [400, 20000] for every theme, content width, watermark and forest, and
    it is what [finalHeight] returns when the options carry no height. *)
Theorem auto_height_is_clamped :
  (forall th mcw wm blocks,
     400 <= autoHeight th mcw wm blocks <= 20000
     /\ autoHeight th mcw wm blocks =
        match estimatedHeight th mcw wm blocks with
        | Fin x => clamp (Qceiling x) 400 20000
        | PInf => 20000
        end)
  /\ (forall inp out w fmt t wmk mw blocks,
        let o := {| input := inp; output := out; width := w; height := None;
                    format := fmt; theme := t; watermark := wmk;
                    maxWidth := mw |} in
        finalHeight o blocks =
        inject_Z (autoHeight (optionsTheme o) (optionsMaxContentWidth o)
                    (normalizeWatermark wmk (optionsTheme o)) blocks)).
Proof.
  split.
  - intros. split; [apply autoHeight_bounds|].
    unfold autoHeight.
    destruct (estimatedHeight th mcw wm blocks); cbn [ceilMin];
      [apply clamp_max_min | reflexivity].
  - reflexivity.
Qed.








Lemma truthy_number_false (h : JsNumber) :
  truthy_number h = false <-> h = NaN \/ exists q, h = Finite q /\ (q == 0)%Q.
Proof.
  split.
  - destruct h as [q| | |]; cbn; try discriminate; [|now left].
    intro H. right. exists q. split; [reflexivity|].
    apply Qeq_bool_eq. now destruct (Qeq_bool q 0).
  - intros [-> | [q [-> Hq]]]; [reflexivity|].
    cbn. now rewrite (Qeq_eq_bool _ _ Hq).
Qed.

(** C6, as the code has it.  An explicit height that is truthy, that is
    neither 0 nor [NaN], is the committed height as it stands, whatever the
    forest, theme, width and watermark are, and also when it is infinite.
    With no height, or with the height 0 or [NaN] (which the test
    [if (options.height)] takes for absent), the committed height is the
    clamped estimate. *)
Theorem explicit_height_is_verbatim (o : RenderOptions)
  (blocks : list NormalizedBlock) :
  (forall h,
     height o = Some h -> h <> NaN ->
     (forall q, h = Finite q -> ~ (q == 0)%Q) ->
     finalHeight o blocks = h)
  /\ ((height o = None
       \/ height o = Some NaN
       \/ exists q, height o = Some (Finite q) /\ (q == 0)%Q) ->
      finalHeight o blocks =
      inject_Z (autoHeight (optionsTheme o) (optionsMaxContentWidth o)
                  (normalizeWatermark (watermark o) (optionsTheme o)) blocks)).
Proof.
  unfold finalHeight. split.
  - intros h -> Hnan Hzero. destruct (truthy_number h) eqn:E; [reflexivity|].
    apply truthy_number_false in E as [E | [q [E Hq]]];
      [contradiction | now elim (Hzero q E)].
  - intros [-> | [-> | [q [-> Hq]]]]; [reflexivity | reflexivity|].
    cbn [truthy_number]. now rewrite (Qeq_eq_bool _ _ Hq).
Qed.

Lemma explicit_height_is_verbatim_witness :
  finalHeight (options None (Some (Finite 600)) WUndefined)
    (normalizeAST (root [para [txt "Hi"]])) = Finite 600
  /\ finalHeight (options None (Some PosInfinity) WUndefined)
       (normalizeAST (root [para [txt "Hi"]])) = PosInfinity
  /\ finalHeight (options None (Some NaN) WUndefined)
       (normalizeAST (root [para [txt "Hi"]])) = inject_Z 400.
Proof.
  split; [|split].
  - apply (explicit_height_is_verbatim
             (options None (Some (Finite 600)) WUndefined)).
    + reflexivity.
    + discriminate.
    + intros q [= <-]. discriminate.
  - apply (explicit_height_is_verbatim
             (options None (Some PosInfinity) WUndefined)).
    + reflexivity.
    + discriminate.
    + discriminate.
  - destruct (explicit_height_is_verbatim
                (options None (Some NaN) WUndefined)
                (normalizeAST (root [para [txt "Hi"]]))) as [_ H].
    rewrite H; [reflexivity | right; left; reflexivity].
Defined.

(** C6 as stated fails: an explicit height of 0 is not used; the estimator
    runs and the committed height is 400.  The same holds of the height
    [NaN]. *)
Lemma explicit_zero_height_is_estimated :
  height (options None (Some (Finite 0)) (WBool false)) = Some (Finite 0)
  /\ finalHeight (options None (Some (Finite 0)) (WBool false))
       (normalizeAST (root [])) = Finite (inject_Z 400)
  /\ finalHeight (options None (Some (Finite 0)) (WBool false))
       (normalizeAST (root [])) <> Finite 0
  /\ finalHeight (options None (Some NaN) (WBool false))
       (normalizeAST (root [])) = Finite (inject_Z 400).
Proof. repeat split. discriminate. Qed.

(** C2, on the code.  What a Paragraph block adds does not depend on its
    text: the block carries no [content], so [textLength] is the fallback 100
    and the line count is that of 100 characters.  Ten paragraphs of two
    characters each at width 260 (content width 180, 20 characters per line)
    get five lines each, 1520 in all, where a line count taken from the two
    characters gives one line each, 560 in all. *)
Theorem paragraph_height_ignores_text :
  (forall th mcw nodes,
     blockHeight th mcw
       (containerBlock "paragraph" (normalizeInlineContent nodes)) =
     num_add (num_scale (paragraphLines 100 (Qfloor (mcw / 9))) 24)
             (Fin (gap (spacing th))))
  /\ (let o := options (Some 260%Q) None (WBool false) in
      let doc := root (repeat (para [txt "Hi"]) 10) in
      optionsMaxContentWidth o = 180%Q
      /\ normalizeAST doc = repeat (containerBlock "paragraph" [textBlock "Hi"]) 10
      /\ finalHeight o (normalizeAST doc) = inject_Z 1520
      /\ (padding (spacing lightTheme) * 2
          + 10 * specParagraphHeight 2 180 lightTheme == 560)%Q).
Proof.
  split; [reflexivity|]. cbv zeta. repeat split.
Qed.

(* ================================================================== *)
(** ** Claims about the fallbacks *)

Lemma or_string_empty (s : string) : Js.or_string (Some s) "" = s.
Proof. now destruct s. Qed.

Section HighlighterFallback.

Variable Highlighter : Type.
Variable initHighlighter : ThemeMode -> Outcome Highlighter.
Variable codeToTokens :
  Highlighter -> string -> string -> string -> Outcome TokensResult.

Lemma tokenizeCode_returns code language mode :
  exists tokens,
    tokenizeCode Highlighter initHighlighter codeToTokens code language mode
    = Returns tokens.
Proof.
  unfold tokenizeCode. destruct (Js.or_undefined language); [|eauto].
  destruct (initHighlighter mode) as [hl|e]; cbn; [|eauto].
  destruct (codeToTokens hl code s (themeName mode)) as [[t|t]|e]; cbn; eauto.
Qed.

Lemma renderCodeBlock_plain b th mode :
  tokenizeCode Highlighter initHighlighter codeToTokens
    (Js.or_string (content b) "") (language b) mode
  = Returns (plainTokens (Js.or_string (content b) "")) ->
  renderCodeBlock Highlighter initHighlighter codeToTokens b th mode
  = Returns (map (fun line =>
                    mkLine None (Spans [mkSpan line (Some (codeText (colors th)))]))
                 (Js.split Js.LF (Js.or_string (content b) ""))).
Proof.
  intro H. unfold renderCodeBlock. rewrite H. cbn [bind try_catch].
  unfold plainTokens. now rewrite map_map.
Qed.

End HighlighterFallback.

(** C7.  [tokenizeCode] never throws.  When the language is absent or empty,
    or creating the highlighter throws, or the highlighter throws on the
    language, it returns one line per piece of the code split at newlines,
    each line a single token without a colour; the code block then renders
    one line element per such piece, in the theme's code text colour. *)
Theorem tokenize_falls_back_to_plain_lines
  (Highlighter : Type)
  (initHighlighter : ThemeMode -> Outcome Highlighter)
  (codeToTokens :
     Highlighter -> string -> string -> string -> Outcome TokensResult)
  (code : string) (lang : option string) (mode : ThemeMode) :
  (Js.or_undefined lang = None
   \/ (exists e, initHighlighter mode = Throws e)
   \/ (exists hl l e,
         initHighlighter mode = Returns hl /\ Js.or_undefined lang = Some l
         /\ codeToTokens hl code l (themeName mode) = Throws e)) ->
  tokenizeCode Highlighter initHighlighter codeToTokens code lang mode
  = Returns (map (fun line => [mkToken line None]) (Js.split Js.LF code))
  /\ (forall th,
        exists lines,
          renderCodeBlock Highlighter initHighlighter codeToTokens
            (codeBlock code lang) th mode = Returns lines
          /\ List.length lines = List.length (Js.split Js.LF code)
          /\ Forall (fun l => exists line,
                       ld_children l =
                       Spans [mkSpan line (Some (codeText (colors th)))])
                    lines)
  /\ (forall code' lang' mode',
        exists tokens,
          tokenizeCode Highlighter initHighlighter codeToTokens
            code' lang' mode' = Returns tokens).
Proof.
  intro H.
  assert (Htok :
            tokenizeCode Highlighter initHighlighter codeToTokens code lang mode
            = Returns (plainTokens code)).
  { unfold tokenizeCode.
    destruct H as [-> | [[e He] | [hl [l [e [Hi [-> Hc]]]]]]].
    - reflexivity.
    - destruct (Js.or_undefined lang); [|reflexivity].
      now rewrite He.
    - now rewrite Hi; cbn; rewrite Hc. }
  split; [exact Htok|]. split; [|apply tokenizeCode_returns].
  intros th.
  assert (Hc : Js.or_string (content (codeBlock code lang)) "" = code)
    by apply or_string_empty.
  eexists. split; [|split].
  - apply renderCodeBlock_plain. rewrite Hc. exact Htok.
  - rewrite Hc. apply length_map.
  - rewrite Hc. apply Forall_forall. intros l Hl.
    apply in_map_iff in Hl as [line [<- _]]. now exists line.
Qed.

Lemma tokenize_falls_back_to_plain_lines_witness :
  tokenizeCode unit (fun _ => Returns tt) sampleCodeToTokens
    (String "a" (String Js.LF "b")) (Some "not-a-real-lang") light
  = Returns [[mkToken "a" None]; [mkToken "b" None]].
Proof.
  apply (tokenize_falls_back_to_plain_lines unit (fun _ => Returns tt)
           sampleCodeToTokens (String "a" (String Js.LF "b"))
           (Some "not-a-real-lang") light).
  right. right. exists tt, "not-a-real-lang", "Language not found".
  repeat split.
Defined.

Lemma mapM_throws {A B : Type} (f : A -> Outcome B) (l : list A)
  (e : string) :
  mapM f l = Throws e -> exists a, In a l /\ f a = Throws e.
Proof.
  induction l as [|a r IH]; cbn [mapM]; [discriminate|].
  destruct (f a) as [b|e'] eqn:Ea; cbn [bind].
  - destruct (mapM f r) as [bs|e'']; cbn [bind]; [discriminate|].
    intros [= ->]. destruct (IH eq_refl) as [a' [Hin Ha']].
    exists a'. split; [now right | exact Ha'].
  - intros [= ->]. exists a. split; [now left | exact Ea].
Qed.

Section PipelineErrors.

Variables SatoriFonts Jsx Buffer : Type.
Variable parseMarkdown : string -> Outcome Node.
Variable loadFontsForSatori : RenderOptions -> Outcome SatoriFonts.
Variable bodyFontName : RenderOptions -> option string.
Variable renderBlock :
  NormalizedBlock -> Theme -> Q -> ThemeMode -> Outcome Jsx.
Variable jsxTruthy : Jsx -> bool.
Variable satori :
  JsxTree Jsx -> Q -> JsNumber -> SatoriFonts -> Outcome string.
Variable toPng : string -> Outcome Buffer.
Variable toBase64 : Buffer -> string.
Variable toFile : string -> string -> Outcome unit.

(** An error of the function from the parse on is an error of one of the
    calls it makes. *)
Lemma renderLoaded_throws (o : RenderOptions) (markdown e : string) :
  renderLoaded SatoriFonts Jsx Buffer parseMarkdown loadFontsForSatori
    bodyFontName renderBlock jsxTruthy satori toPng toBase64 toFile
    o markdown = Throws e ->
  parseMarkdown markdown = Throws e
  \/ loadFontsForSatori o = Throws e
  \/ (exists ast b,
        parseMarkdown markdown = Returns ast /\ In b (normalizeAST ast)
        /\ renderBlock b (optionsTheme o) (optionsMaxContentWidth o)
             (themeMode o) = Throws e)
  \/ (exists tree w h fonts, satori tree w h fonts = Throws e)
  \/ (exists finalSvg, toPng finalSvg = Throws e)
  \/ (exists finalSvg path, toFile finalSvg path = Throws e).
Proof.
  unfold renderLoaded.
  destruct (parseMarkdown markdown) as [ast|e1] eqn:Ep; cbn [bind];
    [|intros [= ->]; now left].
  destruct (loadFontsForSatori o) as [fonts|e2] eqn:Ef; cbn [bind];
    [|intros [= ->]; now right; left].
  destruct (mapM _ (normalizeAST ast)) as [contentBlocks|e3] eqn:Em;
    cbn [bind].
  2:{ intros [= ->]. apply mapM_throws in Em as [b [Hin Hb]].
      right; right; left. now exists ast, b. }
  destruct (satori _ _ _ _) as [finalSvg|e4] eqn:Es; cbn [bind].
  2:{ intros [= ->]. right; right; right; left. eauto. }
  assert (Hpng : forall k : Buffer -> Outcome (RenderResult Buffer),
             (forall pngBuffer e', k pngBuffer = Throws e' ->
                exists finalSvg' path, toFile finalSvg' path = Throws e') ->
             bind (toPng finalSvg) k = Throws e ->
             (exists finalSvg', toPng finalSvg' = Throws e)
             \/ (exists finalSvg' path, toFile finalSvg' path = Throws e)).
  { intros k Hk. destruct (toPng finalSvg) as [pngBuffer|e5] eqn:Et;
      cbn [bind]; [intro H; right; eauto | intros [= ->]; left; eauto]. }
  intro H. do 4 right.
  destruct (format o) as [[| |]|]; try discriminate;
    (apply (Hpng _) in H; [exact H|]); clear H; intros pngBuffer e' H;
    try discriminate.
  - destruct (output o) as [path|]; [|discriminate].
    destruct (Js.truthy_string path); [|discriminate].
    destruct (toFile finalSvg path) eqn:Eo; [discriminate|].
    cbn [bind] in H. injection H as ->. eauto.
  - destruct (output o) as [path|]; [|discriminate].
    destruct (Js.truthy_string path); [|discriminate].
    destruct (toFile finalSvg path) eqn:Eo; [discriminate|].
    cbn [bind] in H. injection H as ->. eauto.
Qed.

End PipelineErrors.

(** C8.  When reading the input as a file throws, the input string is the
    Markdown source: loading returns it, and the render call is the rest of
    the function run on that string, the same as for any other reading
    error.  The reading error never leaves the call: an error of the call is
    one thrown by the parser, the font loader, the rendering of a block,
    satori, or sharp. *)
Theorem missing_file_means_literal_markdown
  (SatoriFonts Jsx Buffer : Type)
  (readFileSync : string -> Outcome string)
  (parseMarkdown : string -> Outcome Node)
  (loadFontsForSatori : RenderOptions -> Outcome SatoriFonts)
  (bodyFontName : RenderOptions -> option string)
  (renderBlock : NormalizedBlock -> Theme -> Q -> ThemeMode -> Outcome Jsx)
  (jsxTruthy : Jsx -> bool)
  (satori : JsxTree Jsx -> Q -> JsNumber -> SatoriFonts -> Outcome string)
  (toPng : string -> Outcome Buffer) (toBase64 : Buffer -> string)
  (toFile : string -> string -> Outcome unit)
  (o : RenderOptions) :
  (exists e, readFileSync (input o) = Throws e) ->
  let call read :=
    renderMarkdownToImage SatoriFonts Jsx Buffer read parseMarkdown
      loadFontsForSatori bodyFontName renderBlock jsxTruthy satori toPng
      toBase64 toFile o in
  loadMarkdown readFileSync o = Returns (input o)
  /\ call readFileSync =
     renderLoaded SatoriFonts Jsx Buffer parseMarkdown loadFontsForSatori
       bodyFontName renderBlock jsxTruthy satori toPng toBase64 toFile
       o (input o)
  /\ (forall readFileSync',
        (exists e', readFileSync' (input o) = Throws e') ->
        call readFileSync' = call readFileSync)
  /\ (forall e',
        call readFileSync = Throws e' ->
        parseMarkdown (input o) = Throws e'
        \/ loadFontsForSatori o = Throws e'
        \/ (exists ast b,
              parseMarkdown (input o) = Returns ast
              /\ In b (normalizeAST ast)
              /\ renderBlock b (optionsTheme o) (optionsMaxContentWidth o)
                   (themeMode o) = Throws e')
        \/ (exists tree w h fonts, satori tree w h fonts = Throws e')
        \/ (exists finalSvg, toPng finalSvg = Throws e')
        \/ (exists finalSvg path, toFile finalSvg path = Throws e')).
Proof.
  intros [e He]. cbv zeta.
  assert (Hload : forall read,
             (exists e', read (input o) = Throws e') ->
             renderMarkdownToImage SatoriFonts Jsx Buffer read parseMarkdown
               loadFontsForSatori bodyFontName renderBlock jsxTruthy satori
               toPng toBase64 toFile o
             = renderLoaded SatoriFonts Jsx Buffer parseMarkdown
                 loadFontsForSatori bodyFontName renderBlock jsxTruthy satori
                 toPng toBase64 toFile o (input o)).
  { intros read [e' He']. unfold renderMarkdownToImage, loadMarkdown.
    now rewrite He'. }
  split; [|split; [|split]].
  - unfold loadMarkdown. now rewrite He.
  - apply Hload. now exists e.
  - intros read' H'. rewrite (Hload read' H'). symmetry. apply Hload.
    now exists e.
  - intros e' H. rewrite Hload in H by now exists e.
    now apply renderLoaded_throws in H.
Qed.

Lemma missing_file_means_literal_markdown_witness :
  renderMarkdownToImage unit string string
    (fun _ => Throws "ENOENT: no such file or directory")
    (fun markdown => Returns (root [para [txt markdown]]))
    (fun _ => Returns tt) (fun _ => None)
    (fun b _ _ _ => Returns (type b)) Js.truthy_string
    (fun _ _ _ _ => Returns "<svg/>") (fun finalSvg => Returns finalSvg)
    (fun pngBuffer => pngBuffer) (fun _ _ => Returns tt)
    {| input := "Hello"; output := None; width := None; height := None;
       format := Some svg; theme := None; watermark := WBool false;
       maxWidth := None |}
  = Returns (mkResult None (Some "<svg/>") None 1200%Q
               (Finite (inject_Z 400))).
Proof.
  destruct (missing_file_means_literal_markdown unit string string
              (fun _ => Throws "ENOENT: no such file or directory")
              (fun markdown => Returns (root [para [txt markdown]]))
              (fun _ => Returns tt) (fun _ => None)
              (fun b _ _ _ => Returns (type b)) Js.truthy_string
              (fun _ _ _ _ => Returns "<svg/>")
              (fun finalSvg => Returns finalSvg)
              (fun pngBuffer => pngBuffer) (fun _ _ => Returns tt)
              {| input := "Hello"; output := None; width := None;
                 height := None; format := Some svg; theme := None;
                 watermark := WBool false; maxWidth := None |})
    as [_ [H _]].
  - now exists "ENOENT: no such file or directory".
  - rewrite H. reflexivity.
Defined.

(* ================================================================== *)
(** ** More on the normaliser *)

Lemma forestText_snoc (l : list NormalizedBlock) (b : NormalizedBlock) :
  forestText (l ++ [b]) = (forestText l ++ blockText b)%string.
Proof.
  unfold forestText. induction l as [|a r IH]; cbn [app map].
  - reflexivity.
  - rewrite !concat_empty_cons, IH. now rewrite append_assoc.
Qed.

Lemma nodeText_eq (n : Node) :
  nodeText n =
  let ty := n_type n in
  if ((ty =? "text") || (ty =? "inlineCode"))%string then n_value n
  else if (ty =? "break")%string then String Js.LF ""
  else if ((ty =? "strong") || (ty =? "emphasis") || (ty =? "link"))%string
  then String.concat "" (map nodeText (n_children n))
  else "".
Proof. destruct n; reflexivity. Qed.

Lemma blockText_eq (b : NormalizedBlock) :
  blockText b =
  (Js.or_string (content b) ""
   ++ match children b with
      | Some cs => forestText cs
      | None => ""
      end)%string.
Proof. destruct b; reflexivity. Qed.

(** The kind of an inline node, as the [switch] sees it. *)
Lemma inline_cases (n : Node) :
  n_type n = "text" \/ n_type n = "break" \/ knownInline (n_type n) = false
  \/ (isConstruct n = true
      /\ (n_type n = "inlineCode" \/ n_type n = "strong"
          \/ n_type n = "emphasis" \/ n_type n = "link"
          \/ n_type n = "image")).
Proof.
  unfold knownInline, isConstruct. cbn [existsb].
  destruct (String.eqb_spec (n_type n) "text"); [now left|].
  destruct (String.eqb_spec (n_type n) "break"); [now right; left|].
  destruct (String.eqb_spec (n_type n) "inlineCode");
    [right; right; right; split; [reflexivity | tauto]|].
  destruct (String.eqb_spec (n_type n) "strong");
    [right; right; right; split; [reflexivity | tauto]|].
  destruct (String.eqb_spec (n_type n) "emphasis");
    [right; right; right; split; [reflexivity | tauto]|].
  destruct (String.eqb_spec (n_type n) "link");
    [right; right; right; split; [reflexivity | tauto]|].
  destruct (String.eqb_spec (n_type n) "image");
    [right; right; right; split; [reflexivity | tauto]|].
  right; right; left; reflexivity.
Qed.

Ltac step_of_kind E :=
  rewrite inlineStep_eq; cbv zeta; rewrite E;
  cbn [String.eqb Ascii.eqb Bool.eqb andb orb].

Lemma push_flush (b : NormalizedBlock) (st : InlineState) :
  push b (flush st) = mkInline (finish st ++ [b]) "".
Proof.
  destruct st as [r [|c t]]; reflexivity.
Qed.

Lemma finish_frame (r0 r : list NormalizedBlock) (t : string) :
  finish (mkInline (r0 ++ r) t) = (r0 ++ finish (mkInline r t))%list.
Proof.
  unfold finish. cbn [result currentText].
  destruct (Js.truthy_string t); [now rewrite app_assoc | reflexivity].
Qed.

(** The five constructs, with a block that does not depend on the state. *)
Lemma inlineStep_construct_block (n : Node) :
  isConstruct n = true ->
  exists b,
    inlineKind b = true /\ forall st, inlineStep st n = push b (flush st).
Proof.
  intro H. destruct (inline_cases n) as [E | [E | [E | [_ E]]]].
  - unfold isConstruct in H. rewrite E in H. discriminate.
  - unfold isConstruct in H. rewrite E in H. discriminate.
  - unfold isConstruct, knownInline in *. cbn [existsb] in *.
    destruct (n_type n =? "inlineCode")%string; [now rewrite Bool.orb_true_r in E|].
    destruct (n_type n =? "strong")%string; [now rewrite !Bool.orb_true_r in E|].
    destruct (n_type n =? "emphasis")%string; [now rewrite !Bool.orb_true_r in E|].
    destruct (n_type n =? "link")%string; [now rewrite !Bool.orb_true_r in E|].
    destruct (n_type n =? "image")%string; [now rewrite !Bool.orb_true_r in E|].
    discriminate.
  - destruct E as [E | [E | [E | [E | E]]]];
      (eexists; split; [|intro st; step_of_kind E; reflexivity]); reflexivity.
Qed.

(** Blocks already in [result] are never touched again. *)
Lemma inlineStep_frame (r0 : list NormalizedBlock) (st : InlineState)
  (n : Node) :
  inlineStep (mkInline (r0 ++ result st) (currentText st)) n =
  mkInline (r0 ++ result (inlineStep st n)) (currentText (inlineStep st n)).
Proof.
  destruct (inline_cases n) as [E | [E | [E | [H _]]]].
  - now do 2 step_of_kind E.
  - now do 2 step_of_kind E.
  - now rewrite !inlineStep_unknown.
  - destruct (inlineStep_construct_block n H) as [b [_ Hb]].
    rewrite !Hb, !push_flush. cbn [result currentText].
    now rewrite finish_frame, app_assoc; destruct st.
Qed.

Lemma fold_frame (nodes : list Node) :
  forall (r0 : list NormalizedBlock) (st : InlineState),
    fold_left inlineStep nodes (mkInline (r0 ++ result st) (currentText st)) =
    mkInline (r0 ++ result (fold_left inlineStep nodes st))
             (currentText (fold_left inlineStep nodes st)).
Proof.
  induction nodes as [|n r IH]; intros r0 st; cbn [fold_left];
    [reflexivity|].
  now rewrite inlineStep_frame, IH.
Qed.

Lemma fold_frame_init (nodes : list Node) (r0 : list NormalizedBlock) :
  fold_left inlineStep nodes (mkInline r0 "") =
  mkInline (r0 ++ result (fold_left inlineStep nodes (mkInline [] "")))
           (currentText (fold_left inlineStep nodes (mkInline [] ""))).
Proof.
  rewrite <- fold_frame. cbn [result currentText]. now rewrite app_nil_r.
Qed.

(** C3.  The normalised forest of any syntax tree has no two adjacent Text
    blocks in any sibling list, at any nesting level, and so has the output
    of the inline normaliser on any node sequence.  A run of text and break
    nodes becomes one Text block holding the texts in order, a newline for
    each break (no block when that string is empty).  Each non-text
    construct first moves the pending text, when there is any, to the end of
    [result] as a Text block and empties it, and only then pushes its own
    block, which is not a Text block; so the output for a sequence around a
    construct is the output for the nodes before it (their last text
    included), the block of the construct, and the output for the nodes
    after it. *)
Theorem normalize_no_adjacent_text :
  (forall tree, everyLevel noAdjacentText (normalizeAST tree) = true)
  /\ (forall nodes,
        everyLevel noAdjacentText (normalizeInlineContent nodes) = true)
  /\ (forall nodes,
        forallb textOrBreak nodes = true ->
        normalizeInlineContent nodes =
        if Js.truthy_string (runText nodes)
        then [textBlock (runText nodes)] else [])
  /\ (forall n,
        existsb (String.eqb (n_type n))
          ["inlineCode"; "strong"; "emphasis"; "link"; "image"] = true ->
        exists b,
          isText b = false
          /\ (forall st,
                inlineStep st n =
                mkInline
                  (result st
                   ++ (if Js.truthy_string (currentText st)
                       then [textBlock (currentText st)] else [])
                   ++ [b]) "")
          /\ (forall pre post,
                normalizeInlineContent (pre ++ n :: post) =
                (normalizeInlineContent pre
                 ++ b :: normalizeInlineContent post)%list)).
Proof.
  assert (Hin : forall nodes,
             everyLevel noAdjacentText (normalizeInlineContent nodes) = true).
  { apply everyLevel_inline with (I := mergeInv).
    - reflexivity.
    - apply mergeInv_push.
    - intros l s b H _ Hb. now apply mergeInv_text_push.
    - unfold mergeInv. intros l H. now apply andb_prop in H as [H _].
    - intros l s H _. now apply mergeInv_text. }
  repeat split.
  - apply everyLevel_normalizeAST with (I := mergeInv).
    + reflexivity.
    + apply mergeInv_push.
    + intros l s b H _ Hb. now apply mergeInv_text_push.
    + unfold mergeInv. intros l H. now apply andb_prop in H as [H _].
    + intros l s H _. now apply mergeInv_text.
    + apply noAdjacentText_no_text.
  - exact Hin.
  - intros nodes H. unfold normalizeInlineContent.
    rewrite (fold_textOrBreak _ H). unfold finish. cbn [result currentText app].
    reflexivity.
  - intros n H. destruct (inlineStep_construct_block n H) as [b [Hb E]].
    exists b. split; [now apply inlineKind_not_text|]. split.
    + intro st. rewrite E, push_flush. unfold finish.
      destruct (Js.truthy_string (currentText st));
        [now rewrite <- app_assoc | reflexivity].
    + intros pre post. rewrite normalizeInlineContent_app. cbn [fold_left].
      rewrite E, push_flush, fold_frame_init, finish_frame.
      unfold normalizeInlineContent.
      destruct (fold_left inlineStep post (mkInline [] "")).
      now rewrite <- app_assoc.
Qed.

(** C3, on a sample: texts around a break merge, and inline code after a
    pending text pushes the text first. *)
Lemma normalize_no_adjacent_text_witness :
  normalizeInlineContent [txt "a"; br; txt "b"] =
    [textBlock (String "a" (String Js.LF "b"))]
  /\ inlineStep (mkInline [] "ab") (literal "inlineCode" "x")
     = mkInline [textBlock "ab"; inlineCodeBlock "x"] ""
  /\ normalizeInlineContent [txt "a"; literal "inlineCode" "x"; txt "b"]
     = [textBlock "a"; inlineCodeBlock "x"; textBlock "b"].
Proof.
  destruct normalize_no_adjacent_text as [_ [_ [Hrun Hpush]]].
  destruct (Hpush (literal "inlineCode" "x") eq_refl) as [b [_ [Hst Hsplit]]].
  assert (Hb : b = inlineCodeBlock "x").
  { pose proof (Hst (mkInline [] "")) as H0. cbn in H0.
    now injection H0 as <-. }
  subst b. split; [|split].
  - apply (Hrun [txt "a"; br; txt "b"]). reflexivity.
  - apply (Hst (mkInline [] "ab")).
  - apply (Hsplit [txt "a"] [txt "b"]).
Defined.

(** X4.  An inline code, strong, emphasis, link or image node cuts the
    sequence into independent runs: the output is the output for the nodes
    before it, then its own single block, then the output for the nodes
    after it. *)
Theorem construct_splits_runs (n : Node) :
  isConstruct n = true ->
  forall pre post,
    normalizeInlineContent (pre ++ n :: post) =
    (normalizeInlineContent pre ++ normalizeInlineContent [n]
       ++ normalizeInlineContent post)%list
    /\ List.length (normalizeInlineContent [n]) = 1%nat.
Proof.
  intros H pre post.
  destruct (inlineStep_construct_block n H) as [b [_ Hb]].
  assert (Hn : normalizeInlineContent [n] = [b]).
  { unfold normalizeInlineContent. cbn [fold_left]. now rewrite Hb. }
  rewrite Hn. split; [|reflexivity].
  rewrite normalizeInlineContent_app. cbn [fold_left].
  rewrite Hb, push_flush.
  rewrite fold_frame_init.
  set (s2 := fold_left inlineStep post (mkInline [] "")).
  rewrite finish_frame. unfold normalizeInlineContent. fold s2.
  destruct s2. now rewrite <- app_assoc.
Qed.

Lemma construct_splits_runs_witness :
  normalizeInlineContent
    [txt "a"; literal "inlineCode" "x"; txt "b"; br; txt "c"] =
  ([textBlock "a"] ++ [inlineCodeBlock "x"]
     ++ [textBlock (String "b" (String Js.LF "c"))])%list.
Proof.
  apply (construct_splits_runs (literal "inlineCode" "x") eq_refl
           [txt "a"] [txt "b"; br; txt "c"]).
Defined.

(** The number of blocks pushed or pending. *)
Lemma finish_length (st : InlineState) :
  List.length (finish st) =
  (List.length (result st)
   + if Js.truthy_string (currentText st) then 1 else 0)%nat.
Proof.
  unfold finish. destruct (Js.truthy_string (currentText st));
    [rewrite length_app; reflexivity | lia].
Qed.

Lemma inlineStep_length (st : InlineState) (n : Node) :
  (List.length (finish (inlineStep st n)) <= S (List.length (finish st)))%nat.
Proof.
  rewrite !finish_length.
  destruct (inline_cases n) as [E | [E | [E | [H _]]]].
  - step_of_kind E. cbn [result currentText].
    destruct (Js.truthy_string _), (Js.truthy_string _); lia.
  - step_of_kind E. cbn [result currentText].
    destruct (Js.truthy_string _), (Js.truthy_string _); lia.
  - rewrite inlineStep_unknown by assumption. lia.
  - destruct (inlineStep_construct_block n H) as [b [_ Hb]].
    rewrite Hb, push_flush. cbn [result currentText Js.truthy_string].
    rewrite length_app, finish_length. cbn [List.length]. lia.
Qed.

(** X5.  The inline normaliser never returns more blocks than it was given
    nodes. *)
Theorem inline_output_no_longer_than_input (nodes : list Node) :
  (List.length (normalizeInlineContent nodes) <= List.length nodes)%nat.
Proof.
  unfold normalizeInlineContent.
  assert (H : forall st,
             (List.length (finish (fold_left inlineStep nodes st))
              <= List.length (finish st) + List.length nodes)%nat).
  { induction nodes as [|n r IH]; intro st; cbn [fold_left List.length];
      [lia|].
    specialize (IH (inlineStep st n)).
    pose proof (inlineStep_length st n). lia. }
  apply (H (mkInline [] "")).
Qed.

(* ------------------------------------------------------------------ *)
(** *** The text of the inline content *)

(** The text pushed so far, then the pending text. *)
Lemma forestText_finish (st : InlineState) :
  forestText (finish st) = (forestText (result st) ++ currentText st)%string.
Proof.
  unfold finish. destruct (currentText st) as [|c t] eqn:E;
    cbn [Js.truthy_string].
  - now rewrite append_nil_r.
  - rewrite forestText_snoc, blockText_eq. cbn [content children textBlock].
    rewrite or_string_empty. now rewrite append_nil_r.
Qed.

Lemma forestText_fold (nodes : list Node) :
  Forall (fun n => forall st,
            forestText (finish (inlineStep st n)) =
            (forestText (finish st) ++ nodeText n)%string) nodes ->
  forall st,
    forestText (finish (fold_left inlineStep nodes st)) =
    (forestText (finish st) ++ String.concat "" (map nodeText nodes))%string.
Proof.
  induction 1 as [|n r Hn _ IH]; intro st; cbn [fold_left map].
  - cbn. now rewrite append_nil_r.
  - now rewrite IH, Hn, concat_empty_cons, append_assoc.
Qed.

Lemma forestText_step (n : Node) :
  forall st,
    forestText (finish (inlineStep st n)) =
    (forestText (finish st) ++ nodeText n)%string.
Proof.
  induction n as [n IH] using Node_nested_ind. intro st.
  assert (Hkids : forestText (normalizeInlineContent (n_children n)) =
                  String.concat "" (map nodeText (n_children n))).
  { unfold normalizeInlineContent. now rewrite (forestText_fold _ IH). }
  rewrite nodeText_eq. cbv zeta.
  destruct (inline_cases n) as [E | [E | [E | [_ E]]]].
  - step_of_kind E. rewrite !forestText_finish. cbn [result currentText].
    now rewrite append_assoc.
  - step_of_kind E. rewrite !forestText_finish. cbn [result currentText].
    now rewrite append_assoc.
  - rewrite inlineStep_unknown by assumption.
    unfold knownInline in E. cbn [existsb] in E.
    repeat match goal with
           | |- context [(n_type n =? ?k)%string] =>
               destruct (n_type n =? k)%string;
               [rewrite ?Bool.orb_true_r in E; discriminate|]
           end.
    cbn [orb]. now rewrite append_nil_r.
  - destruct E as [E | [E | [E | [E | E]]]];
      step_of_kind E; rewrite push_flush, forestText_finish;
      cbn [result currentText]; rewrite forestText_snoc, append_nil_r;
      f_equal; rewrite blockText_eq;
      cbn [content children inlineCodeBlock containerBlock linkBlock
             imageBlock];
      rewrite ?or_string_empty, ?Hkids, ?append_nil_r; reflexivity.
Qed.

(** X3.  The inline normaliser loses no text and keeps its order: the text of
    its output, read depth first, is the text of the input nodes, where an
    image and a node of unknown kind have no text. *)
Theorem inline_text_is_preserved (nodes : list Node) :
  forestText (normalizeInlineContent nodes) =
  String.concat "" (map nodeText nodes).
Proof.
  unfold normalizeInlineContent. rewrite forestText_fold.
  - reflexivity.
  - apply Forall_forall. intros n _. apply forestText_step.
Qed.

(* ------------------------------------------------------------------ *)
(** *** One block for each recognised node, in order *)

Lemma normalizeNode_types (n : Node) :
  map type (normalizeNode n) = if isBlockNode n then [n_type n] else [].
Proof.
  rewrite normalizeNode_eq. unfold isBlockNode, blockKinds. cbv zeta.
  cbn [existsb].
  repeat match goal with
         | |- context [(n_type n =? ?k)%string] =>
             destruct (String.eqb_spec (n_type n) k) as [->|];
             [reflexivity|]
         end.
  reflexivity.
Qed.

(** X2.  The children of a root that have one of the six block kinds give one
    block each, of the same kind and in the same order; every other child
    gives nothing.  So the forest is never longer than the child list. *)
Theorem blocks_follow_recognised_nodes (cs : list Node) :
  map type (normalizeAST (root cs)) = map n_type (filter isBlockNode cs)
  /\ (List.length (normalizeAST (root cs)) <= List.length cs)%nat.
Proof.
  rewrite normalizeAST_root.
  assert (H : map type (flat_map normalizeNode cs)
              = map n_type (filter isBlockNode cs)).
  { induction cs as [|n r IH]; cbn [flat_map filter]; [reflexivity|].
    rewrite map_app, normalizeNode_types, IH.
    now destruct (isBlockNode n). }
  split; [exact H|].
  rewrite <- (length_map type), H, length_map. apply filter_length_le.
Qed.

(* ------------------------------------------------------------------ *)
(** *** The shape of the forest *)

Lemma deep_eq (P : list NormalizedBlock -> bool) (b : NormalizedBlock) :
  deep P b =
  match children b with
  | Some cs => P cs && forallb (deep P) cs
  | None => true
  end.
Proof. destruct b; reflexivity. Qed.

(** A property of every block that follows from another one, at every
    level. *)
Lemma deep_mono (p q : NormalizedBlock -> bool) :
  (forall b, p b = true -> q b = true) ->
  forall b, deep (forallb p) b = true -> deep (forallb q) b = true.
Proof.
  intro Hpq. induction b as [b IH] using NormalizedBlock_nested_ind.
  rewrite !deep_eq. destruct (children b) as [cs|]; [|reflexivity].
  intro H. apply andb_prop in H as [H1 H2].
  rewrite forallb_forall in H1, H2. rewrite Forall_forall in IH.
  apply andb_true_intro. split; apply forallb_forall; auto.
Qed.

Lemma everyLevel_mono (p q : NormalizedBlock -> bool)
  (l : list NormalizedBlock) :
  (forall b, p b = true -> q b = true) ->
  everyLevel (forallb p) l = true -> everyLevel (forallb q) l = true.
Proof.
  intros Hpq H. unfold everyLevel in *. apply andb_prop in H as [H1 H2].
  rewrite forallb_forall in H1, H2.
  apply andb_true_intro.
  split; apply forallb_forall; intros b Hb;
    [auto | apply (deep_mono p q Hpq); auto].
Qed.

Lemma shape_renderable (b : NormalizedBlock) :
  shape b = true -> hasKind renderBlockCases b = true.
Proof.
  unfold shape, hasKind, renderBlockCases. cbn [existsb].
  repeat match goal with
         | |- context [(type b =? ?k)%string] =>
             destruct (type b =? k)%string
         end;
    cbn [orb]; intro H; try reflexivity; discriminate.
Qed.

Lemma inline_kinds (nodes : list Node) :
  forallb (hasKind inlineKinds) (normalizeInlineContent nodes) = true.
Proof.
  assert (Hk : forall b, inlineKind b = true -> hasKind inlineKinds b = true).
  { intros b. unfold inlineKind, hasKind, inlineKinds. cbn [existsb].
    intros ->. apply Bool.orb_true_r. }
  pose proof (everyLevel_inline (forallb (hasKind inlineKinds))
                (forallb (hasKind inlineKinds))) as H.
  unfold everyLevel in H.
  refine (proj1 (andb_prop _ _ (H _ _ _ _ _ nodes))); clear H.
  - reflexivity.
  - intros l b Hl Hb. now rewrite forallb_snoc, Hl, (Hk b Hb).
  - intros l s b Hl _ Hb. now rewrite !forallb_snoc, Hl, (Hk b Hb).
  - auto.
  - intros l s Hl _. now rewrite forallb_snoc, Hl.
Qed.

Lemma shape_flush_push (st : InlineState) (b : NormalizedBlock) :
  Inv (forallb shape) (forallb shape) st ->
  shape b = true -> deep (forallb shape) b = true ->
  Inv (forallb shape) (forallb shape) (push b (flush st)).
Proof.
  intros [H1 H2] Hs Hd. rewrite push_flush. unfold Inv, finish.
  cbn [result].
  destruct (currentText st) as [|c t]; cbn [Js.truthy_string];
    rewrite !forallb_snoc, ?H1, ?H2, ?Hs, ?Hd; split; reflexivity.
Qed.

Lemma shape_finish (st : InlineState) :
  Inv (forallb shape) (forallb shape) st ->
  everyLevel (forallb shape) (finish st) = true.
Proof.
  apply Inv_finish; [auto|].
  intros l s Hl Hs. rewrite forallb_snoc, Hl. cbn.
  unfold textNonEmpty. cbn. now rewrite Hs.
Qed.

Lemma shape_step (n : Node) :
  forall st,
    Inv (forallb shape) (forallb shape) st ->
    Inv (forallb shape) (forallb shape) (inlineStep st n).
Proof.
  induction n as [n IH] using Node_nested_ind. intros st Hst.
  assert (Hkids : everyLevel (forallb shape)
                    (normalizeInlineContent (n_children n)) = true).
  { apply shape_finish, Inv_fold; [exact IH|]. now apply Inv_init. }
  pose proof (inline_kinds (n_children n)) as Hkinds.
  destruct (inline_cases n) as [E | [E | [E | [_ E]]]].
  - step_of_kind E. exact Hst.
  - step_of_kind E. exact Hst.
  - now rewrite inlineStep_unknown.
  - destruct E as [E | [E | [E | [E | E]]]]; step_of_kind E;
      apply shape_flush_push;
      first [exact Hst | exact Hkinds | exact Hkids | reflexivity].
Qed.

Lemma shape_inline (nodes : list Node) :
  everyLevel (forallb shape) (normalizeInlineContent nodes) = true.
Proof.
  apply shape_finish, Inv_fold; [|now apply Inv_init].
  apply Forall_forall. intros n _. apply shape_step.
Qed.

Lemma or_undefined_truthy (x : option string) :
  match Js.or_undefined x with
  | Some l => Js.truthy_string l
  | None => true
  end = true.
Proof. destruct x as [[|c s]|]; reflexivity. Qed.

Lemma or_Z_nonzero (x : option Z) (d : Z) :
  d <> 0 -> Js.or_Z x d <> 0.
Proof.
  intro Hd. unfold Js.or_Z. destruct x as [v|]; [|exact Hd].
  destruct (Z.eqb_spec v 0); assumption.
Qed.

Lemma shape_normalizeNode (n : Node) :
  (everyLevel (forallb shape) (normalizeNode n) = true
   /\ forallb (hasKind blockKinds) (normalizeNode n) = true)
  /\ (everyLevel (forallb shape) (flat_map normalizeNode (n_children n)) = true
      /\ forallb (hasKind blockKinds) (flat_map normalizeNode (n_children n))
         = true).
Proof.
  induction n as [n IH] using Node_nested_ind.
  rewrite Forall_forall in IH.
  assert (Hflat : everyLevel (forallb shape)
                    (flat_map normalizeNode (n_children n)) = true
                  /\ forallb (hasKind blockKinds)
                       (flat_map normalizeNode (n_children n)) = true).
  { split.
    - apply everyLevel_flat_map, Forall_forall. intros c Hc.
      apply (IH c Hc).
    - apply forallb_flat_map, Forall_forall. intros c Hc. apply (IH c Hc). }
  split; [|exact Hflat]. destruct Hflat as [Hf1 Hf2].
  pose proof (shape_inline (n_children n)) as Hin.
  pose proof (inline_kinds (n_children n)) as Hkinds.
  rewrite normalizeNode_eq. cbv zeta.
  destruct (n_type n =? "heading")%string.
  { split; [|reflexivity].
    apply everyLevel_singleton; [exact Hkinds | exact Hin]. }
  destruct (n_type n =? "paragraph")%string.
  { split; [|reflexivity].
    apply everyLevel_singleton; [exact Hkinds | exact Hin]. }
  destruct (n_type n =? "code")%string.
  { split; [|reflexivity]. apply everyLevel_singleton; [|reflexivity].
    apply (or_undefined_truthy (n_lang n)). }
  destruct (n_type n =? "blockquote")%string.
  { split; [|reflexivity].
    apply everyLevel_singleton; [exact Hf2 | exact Hf1]. }
  destruct (n_type n =? "list")%string.
  { split; [|reflexivity]. apply everyLevel_singleton.
    - unfold shape. cbn [type listBlock String.eqb Ascii.eqb Bool.eqb andb orb].
      unfold childrenOf. cbn [children ordered start].
      apply andb_true_intro. split; [apply andb_true_intro; split|].
      + apply forallb_forall. intros b Hb.
        apply in_map_iff in Hb as [item [<- _]]. reflexivity.
      + reflexivity.
      + apply Bool.negb_true_iff, Z.eqb_neq, or_Z_nonzero. discriminate.
    - cbn [deep children listBlock]. apply andb_true_intro. split.
      + apply forallb_forall. intros b Hb.
        apply in_map_iff in Hb as [item [<- Hitem]].
        apply (IH item Hitem).
      + apply forallb_forall. intros b Hb.
        apply in_map_iff in Hb as [item [<- Hitem]].
        apply (IH item Hitem). }
  destruct (n_type n =? "thematicBreak")%string; split; reflexivity.
Qed.

(** X1.  The grammar of the normalised forest of any syntax tree.  At every
    nesting level each block has the fields and children its kind calls for:
    headings, paragraphs, strong, emphasis and links hold inline blocks only;
    blockquotes and list items hold block-level blocks only; a list holds
    list items only, has [ordered] set and a [start] other than 0; a code
    block has a content, no children and never an empty language; text,
    inline code, images and thematic breaks have no children.  The top level
    holds block-level kinds only, and every kind in the forest is a case of
    the [switch] of [renderBlock]. *)
Theorem normalized_forest_shape (tree : Node) :
  everyLevel (forallb shape) (normalizeAST tree) = true
  /\ forallb (hasKind blockKinds) (normalizeAST tree) = true
  /\ everyLevel (forallb (hasKind renderBlockCases)) (normalizeAST tree)
     = true.
Proof.
  assert (H : everyLevel (forallb shape) (normalizeAST tree) = true
              /\ forallb (hasKind blockKinds) (normalizeAST tree) = true).
  { unfold normalizeAST.
    destruct (n_type tree =? "root")%string; apply shape_normalizeNode. }
  destruct H as [H1 H2]. repeat split; [exact H1 | exact H2 |].
  exact (everyLevel_mono _ _ _ shape_renderable H1).
Qed.

(* ================================================================== *)
(** ** More on the height of the canvas *)

Lemma num_le_refl (a : num) : num_le a a.
Proof. destruct a; cbn; [apply Qle_refl | exact I]. Qed.

Lemma num_le_trans (a b c : num) : num_le a b -> num_le b c -> num_le a c.
Proof.
  destruct a, b, c; cbn; try tauto. apply Qle_trans.
Qed.

Lemma num_add_nonneg (a h : num) : num_le (Fin 0) h -> num_le a (num_add a h).
Proof.
  destruct a as [x|], h as [y|]; cbn; try tauto. intro H. lra.
Qed.

Lemma num_add_le_compat (a b c : num) :
  num_le a b -> num_le (num_add a c) (num_add b c).
Proof.
  destruct a as [x|], b as [y|], c as [z|]; cbn; try tauto. intro H. lra.
Qed.

Lemma ceilMin_mono (a b : num) (cap : Z) :
  num_le a b -> ceilMin a cap <= ceilMin b cap.
Proof.
  destruct a as [x|], b as [y|]; cbn; try tauto; try lia.
  intro H. apply Qceiling_resp_le in H. lia.
Qed.

Lemma inject_Z_nonneg (z : Z) : 0 <= z -> (0 <= inject_Z z)%Q.
Proof. intro H. unfold Qle. cbn. lia. Qed.

Lemma getHeadingSize_bounds (l : Z) :
  (16 <= getHeadingSize l)%Q /\ (getHeadingSize l <= 36)%Q.
Proof.
  unfold getHeadingSize.
  repeat match goal with
         | |- context [if ?b then _ else _] => destruct b
         end; split; lra.
Qed.

Lemma blockHeight_nonneg th w b :
  (0 <= gap (spacing th))%Q -> (0 <= codePadding (spacing th))%Q ->
  num_le (Fin 0) (blockHeight th w b).
Proof.
  intros Hg Hc. unfold blockHeight. cbv zeta.
  destruct (_ && _).
  { cbn [num_le].
    pose proof (inject_Z_nonneg
                  (Z.of_nat (List.length
                     (Js.split Js.LF (Js.or_string (content b) ""))))
                  (Nat2Z.is_nonneg _)) as H.
    revert H. generalize (inject_Z (Z.of_nat (List.length
                 (Js.split Js.LF (Js.or_string (content b) ""))))).
    intros q H. lra. }
  destruct (type b =? "heading")%string.
  { cbn [num_le].
    pose proof (getHeadingSize_bounds (Js.or_Z (level b) 1)) as [H _].
    revert H. generalize (getHeadingSize (Js.or_Z (level b) 1)).
    intros q H. lra. }
  destruct (type b =? "paragraph")%string.
  { unfold paragraphLines. destruct (_ =? 0); [exact I|].
    cbn [num_scale num_add num_le].
    match goal with
    | |- context [inject_Z (Z.max 1 ?z)] =>
        pose proof (inject_Z_nonneg (Z.max 1 z) ltac:(lia)) as H;
        revert H; generalize (inject_Z (Z.max 1 z))
    end.
    intros q H. lra. }
  destruct (type b =? "list")%string.
  { cbn [num_le].
    match goal with
    | |- context [inject_Z ?z] =>
        assert (H : (0 <= inject_Z z)%Q)
          by (apply inject_Z_nonneg; destruct (children b); lia);
        revert H; generalize (inject_Z z)
    end.
    intros q H. lra. }
  destruct (type b =? "blockquote")%string; cbn [num_le]; lra.
Qed.

Lemma fold_blockHeight_grows th w (more : list NormalizedBlock) :
  (0 <= gap (spacing th))%Q -> (0 <= codePadding (spacing th))%Q ->
  forall acc,
    num_le acc
      (fold_left (fun acc b => num_add acc (blockHeight th w b)) more acc).
Proof.
  intros Hg Hc. induction more as [|b r IH]; intro acc; cbn [fold_left].
  - apply num_le_refl.
  - eapply num_le_trans; [|apply IH].
    apply num_add_nonneg, blockHeight_nonneg; assumption.
Qed.

(** X6.  With a theme whose gap and code padding are not negative, appending
    blocks to a document never lowers the estimate, before or after the
    clamp. *)
Theorem estimate_grows_with_document th w wm
  (blocks more : list NormalizedBlock) :
  (0 <= gap (spacing th))%Q -> (0 <= codePadding (spacing th))%Q ->
  num_le (estimatedHeight th w wm blocks)
         (estimatedHeight th w wm (blocks ++ more))
  /\ autoHeight th w wm blocks <= autoHeight th w wm (blocks ++ more).
Proof.
  intros Hg Hc.
  assert (H : num_le (estimatedHeight th w wm blocks)
                     (estimatedHeight th w wm (blocks ++ more))).
  { unfold estimatedHeight. rewrite fold_left_app.
    pose proof (fold_blockHeight_grows th w more Hg Hc
                  (fold_left (fun acc b => num_add acc (blockHeight th w b))
                             blocks (Fin (padding (spacing th) * 2)))) as H.
    destruct wm; [now apply num_add_le_compat | exact H]. }
  split; [exact H|].
  unfold autoHeight. apply (ceilMin_mono _ _ 20000) in H. lia.
Qed.

Lemma estimate_grows_with_document_witness :
  autoHeight lightTheme 1120 None
    (normalizeAST (root (repeat (para [txt "Hi"]) 10)))
  <= autoHeight lightTheme 1120 None
       (normalizeAST (root (repeat (para [txt "Hi"]) 10))
        ++ normalizeAST (root [heading 1 [txt "End"]])).
Proof.
  apply (estimate_grows_with_document lightTheme 1120 None
           (normalizeAST (root (repeat (para [txt "Hi"]) 10)))
           (normalizeAST (root [heading 1 [txt "End"]]))).
  - vm_compute. discriminate.
  - vm_compute. discriminate.
Defined.

Lemma Qfloor_narrow (w : Q) : (0 <= w)%Q -> (w < 9)%Q -> Qfloor (w / 9) = 0.
Proof.
  intros H0 H9.
  assert (Hlo : (0 <= w / 9)%Q) by (apply Qle_shift_div_l; lra).
  assert (Hhi : (w / 9 < 1)%Q) by (apply Qlt_shift_div_r; lra).
  pose proof (Qfloor_le (w / 9)) as Hf.
  pose proof (Qlt_floor (w / 9)) as Hc.
  assert (A : (inject_Z (Qfloor (w / 9)) < inject_Z 1)%Q)
    by (change (inject_Z 1) with 1%Q; lra).
  assert (B : (inject_Z (-1) < inject_Z (Qfloor (w / 9)))%Q).
  { rewrite inject_Z_plus in Hc. change (inject_Z 1) with 1%Q in Hc.
    change (inject_Z (-1)) with (-1)%Q. lra. }
  rewrite <- Zlt_Qlt in A, B. lia.
Qed.

Lemma fold_blockHeight_PInf th w (blocks : list NormalizedBlock) :
  fold_left (fun acc b => num_add acc (blockHeight th w b)) blocks PInf
  = PInf.
Proof. induction blocks as [|b r IH]; cbn [fold_left]; auto. Qed.

(** X7.  With a content width from 0 up to (not including) 9, the characters
    per line are 0, a paragraph gets infinitely many lines, and any document
    with a paragraph at top level is given the maximum height 20000. *)
Theorem narrow_content_gives_maximum_height th (w : Q) wm
  (blocks : list NormalizedBlock) :
  (0 <= w)%Q -> (w < 9)%Q -> existsb isParagraph blocks = true ->
  estimatedHeight th w wm blocks = PInf
  /\ autoHeight th w wm blocks = 20000.
Proof.
  intros H0 H9 Hp.
  assert (Hb : forall b, isParagraph b = true -> blockHeight th w b = PInf).
  { intros b Hb. unfold isParagraph in Hb. apply String.eqb_eq in Hb.
    unfold blockHeight. rewrite Hb. cbv zeta.
    cbn [String.eqb Ascii.eqb Bool.eqb andb].
    now rewrite (Qfloor_narrow w H0 H9). }
  assert (H : forall acc,
             fold_left (fun acc b => num_add acc (blockHeight th w b))
                       blocks acc = PInf).
  { induction blocks as [|b r IH]; [discriminate|]. intro acc.
    cbn [fold_left existsb] in *. destruct (isParagraph b) eqn:E.
    - rewrite (Hb b E). destruct acc; apply fold_blockHeight_PInf.
    - apply IH. exact Hp. }
  assert (He : estimatedHeight th w wm blocks = PInf).
  { unfold estimatedHeight. rewrite H. now destruct wm. }
  split; [exact He|]. unfold autoHeight. now rewrite He.
Qed.

Lemma narrow_content_gives_maximum_height_witness :
  autoHeight lightTheme
    (optionsMaxContentWidth (options (Some 80%Q) None (WBool false))) None
    (normalizeAST (root [para [txt "Hi"]])) = 20000.
Proof.
  apply (narrow_content_gives_maximum_height lightTheme
           (optionsMaxContentWidth (options (Some 80%Q) None (WBool false)))
           None (normalizeAST (root [para [txt "Hi"]]))).
  - vm_compute. discriminate.
  - reflexivity.
  - reflexivity.
Defined.

(* ================================================================== *)
(** ** The watermark overlay *)

Lemma or_Q_nonzero (x : option Q) (d : Q) :
  ~ (d == 0)%Q -> ~ (Js.or_Q x d == 0)%Q.
Proof.
  intro Hd. unfold Js.or_Q. destruct x as [v|]; [|exact Hd].
  destruct (Qeq_bool v 0) eqn:E; [exact Hd|].
  now apply Qeq_bool_neq.
Qed.

Lemma or_string_truthy (x : option string) (d : string) :
  Js.truthy_string d = true -> Js.truthy_string (Js.or_string x d) = true.
Proof.
  intro Hd. unfold Js.or_string. destruct x as [s|]; [|exact Hd].
  destruct (Js.truthy_string s) eqn:E; assumption.
Qed.

(** X10.  The watermark settings normalise to nothing only for [false].  The
    overlay of normalised settings is then left out only for an object with
    [enabled: false]; a drawn overlay never has a font size or a padding of
    0, nor an empty text or font family, and sits at the same distance from
    the bottom and the right. *)
Theorem watermark_overlay (w : WatermarkOption) (th : Theme)
  (width : Q) (height : JsNumber) (font : option string) :
  match normalizeWatermark w th with
  | None => w = WBool false
  | Some cfg =>
      match renderWatermark cfg width height th font with
      | None => exists c, w = WConfig c /\ enabled c = Some false
      | Some el =>
          ~ (we_fontSize el == 0)%Q
          /\ ~ (we_bottom el == 0)%Q
          /\ we_right el = we_bottom el
          /\ Js.truthy_string (we_children el) = true
          /\ Js.truthy_string (we_fontFamily el) = true
      end
  end.
Proof.
  destruct w as [|[|]|c]; cbn [normalizeWatermark]; try reflexivity.
  - cbn. repeat split;
      [discriminate | discriminate | apply or_string_truthy; reflexivity].
  - cbn. repeat split;
      [discriminate | discriminate | apply or_string_truthy; reflexivity].
  - unfold renderWatermark. cbn [enabled Js.or_false negb].
    destruct (enabled c) as [[|]|] eqn:E; cbn [enabled Js.or_false negb];
      try (now exists c);
      cbn [we_fontSize we_bottom we_right we_children we_fontFamily
             fontSize wm_padding wm_text];
      (repeat split;
       [apply or_Q_nonzero; discriminate
       |apply or_Q_nonzero; discriminate
       |apply or_string_truthy; reflexivity
       |apply or_string_truthy; reflexivity]).
Qed.

(** X11.  Watermark settings with [enabled: false] draw no overlay, but the
    estimator still adds the 40 of the watermark reserve, as it tests the
    normalised settings for presence only. *)
Theorem disabled_watermark_still_reserves (c : WatermarkConfig) (th : Theme)
  (mcw width : Q) (height : JsNumber) (font : option string)
  (blocks : list NormalizedBlock) :
  enabled c = Some false ->
  exists cfg,
    normalizeWatermark (WConfig c) th = Some cfg
    /\ renderWatermark cfg width height th font = None
    /\ estimatedHeight th mcw (Some cfg) blocks =
       num_add (estimatedHeight th mcw None blocks) (Fin 40).
Proof.
  intro H. eexists. split; [reflexivity|]. split; [|reflexivity].
  unfold renderWatermark. cbn [enabled]. now rewrite H.
Qed.

Lemma disabled_watermark_still_reserves_witness :
  exists cfg,
    normalizeWatermark
      (WConfig (mkWatermark (Some false) None None None None None))
      lightTheme = Some cfg
    /\ renderWatermark cfg 1200 (Finite 400) lightTheme None = None
    /\ estimatedHeight lightTheme 1120 (Some cfg) [] =
       num_add (estimatedHeight lightTheme 1120 None []) (Fin 40).
Proof.
  apply (disabled_watermark_still_reserves
           (mkWatermark (Some false) None None None None None)).
  reflexivity.
Defined.

(** X12.  A built-in theme passed as an object gives the same theme and the
    same highlighter mode as the theme passed by name. *)
Theorem builtin_theme_object_keeps_mode (o : RenderOptions) (m : ThemeMode) :
  theme o = Some (Custom (getTheme (Named m))) ->
  optionsTheme o = getTheme (Named m) /\ themeMode o = m.
Proof.
  unfold optionsTheme, themeMode. intros ->. now destruct m.
Qed.

Lemma builtin_theme_object_keeps_mode_witness :
  themeMode {| input := "doc.md"; output := None; width := None;
               height := None; format := None;
               theme := Some (Custom darkTheme); watermark := WUndefined;
               maxWidth := None |} = dark.
Proof.
  apply (builtin_theme_object_keeps_mode
           {| input := "doc.md"; output := None; width := None;
              height := None; format := None;
              theme := Some (Custom darkTheme); watermark := WUndefined;
              maxWidth := None |} dark).
  reflexivity.
Defined.

(* ================================================================== *)
(** ** More on the highlighter and the code block *)

(** X15.  [tokensToSatori] keeps the token texts in order and gives every
    span a colour: the token's own when it has a non-empty one, the default
    colour otherwise. *)
Theorem tokensToSatori_colours (tokens : list ThemedToken)
  (defaultColor : string) :
  map sp_children (tokensToSatori tokens defaultColor) = map tk_content tokens
  /\ Forall2 (fun token span =>
                sp_color span =
                Some (match tk_color token with
                      | Some c => if Js.truthy_string c then c
                                  else defaultColor
                      | None => defaultColor
                      end))
             tokens (tokensToSatori tokens defaultColor).
Proof.
  unfold tokensToSatori. split.
  - rewrite map_map. reflexivity.
  - induction tokens as [|t r IH]; cbn [map]; constructor; [|exact IH].
    cbn [sp_color]. unfold Js.or_string. now destruct (tk_color t).
Qed.

Section HighlighterMore.

Variable Highlighter : Type.
Variable initHighlighter : ThemeMode -> Outcome Highlighter.
Variable codeToTokens :
  Highlighter -> string -> string -> string -> Outcome TokensResult.

Lemma renderCodeBlock_of_tokens b th mode tokens :
  tokenizeCode Highlighter initHighlighter codeToTokens
    (Js.or_string (content b) "") (language b) mode = Returns tokens ->
  exists lines,
    renderCodeBlock Highlighter initHighlighter codeToTokens b th mode
    = Returns lines
    /\ List.length lines = List.length tokens
    /\ Forall (fun l => exists sp rest, ld_children l = Spans (sp :: rest))
              lines.
Proof.
  intro H. unfold renderCodeBlock. rewrite H. cbn [bind try_catch].
  eexists. split; [reflexivity|]. split; [apply length_map|].
  apply Forall_forall. intros l Hl.
  apply in_map_iff in Hl as [lineTokens [<- _]]. cbn [ld_children].
  destruct (tokensToSatori lineTokens (codeText (colors th))); eauto.
Qed.

End HighlighterMore.

(** X13.  When the highlighter is available and tokenises the code for a
    non-empty language, [tokenizeCode] returns its token lines as they are,
    whether they come wrapped in an object with a [tokens] property or
    bare. *)
Theorem tokenize_uses_highlighter_tokens
  (Highlighter : Type)
  (initHighlighter : ThemeMode -> Outcome Highlighter)
  (codeToTokens :
     Highlighter -> string -> string -> string -> Outcome TokensResult)
  (code lang : string) (mode : ThemeMode) (hl : Highlighter)
  (result : TokensResult) :
  Js.truthy_string lang = true ->
  initHighlighter mode = Returns hl ->
  codeToTokens hl code lang (themeName mode) = Returns result ->
  tokenizeCode Highlighter initHighlighter codeToTokens code (Some lang) mode
  = Returns (match result with WithTokens t => t | Bare t => t end).
Proof.
  intros Hl Hi Hc. unfold tokenizeCode. cbn [Js.or_undefined].
  rewrite Hl, Hi. cbn [bind try_catch]. rewrite Hc. now destruct result.
Qed.

Lemma tokenize_uses_highlighter_tokens_witness :
  tokenizeCode unit (fun _ => Returns tt) sampleCodeToTokens
    "let x" (Some "javascript") dark
  = Returns [[mkToken "let x" (Some "#d73a49")]].
Proof.
  apply (tokenize_uses_highlighter_tokens unit (fun _ => Returns tt)
           sampleCodeToTokens "let x" "javascript" dark tt
           (WithTokens [[mkToken "let x" (Some "#d73a49")]]));
    reflexivity.
Defined.

(** X14.  Rendering a code block never throws, whatever the highlighter does:
    it yields one line element per token line of [tokenizeCode], and no line
    element is without a span (a line without tokens gets a single blank
    span). *)
Theorem code_block_always_renders
  (Highlighter : Type)
  (initHighlighter : ThemeMode -> Outcome Highlighter)
  (codeToTokens :
     Highlighter -> string -> string -> string -> Outcome TokensResult)
  (b : NormalizedBlock) (th : Theme) (mode : ThemeMode) :
  exists tokens lines,
    tokenizeCode Highlighter initHighlighter codeToTokens
      (Js.or_string (content b) "") (language b) mode = Returns tokens
    /\ renderCodeBlock Highlighter initHighlighter codeToTokens b th mode
       = Returns lines
    /\ List.length lines = List.length tokens
    /\ Forall (fun l => exists sp rest, ld_children l = Spans (sp :: rest))
              lines.
Proof.
  destruct (tokenizeCode_returns Highlighter initHighlighter codeToTokens
              (Js.or_string (content b) "") (language b) mode)
    as [tokens Ht].
  destruct (renderCodeBlock_of_tokens Highlighter initHighlighter
              codeToTokens b th mode tokens Ht) as [lines [H1 [H2 H3]]].
  exists tokens, lines. auto.
Qed.

(** X9.  For a code block without a language the renderer draws one line
    element per newline-split piece of the code, and the estimator counts
    the same number of lines at 20 each plus twice the code padding and the
    gap; the exception is the empty code block, drawn as one line and
    estimated as a default block, 30 plus the gap. *)
Theorem code_estimate_counts_rendered_lines
  (Highlighter : Type)
  (initHighlighter : ThemeMode -> Outcome Highlighter)
  (codeToTokens :
     Highlighter -> string -> string -> string -> Outcome TokensResult)
  (value : string) (th : Theme) (mcw : Q) (mode : ThemeMode) :
  exists lines,
    renderCodeBlock Highlighter initHighlighter codeToTokens
      (codeBlock value None) th mode = Returns lines
    /\ List.length lines = List.length (Js.split Js.LF value)
    /\ blockHeight th mcw (codeBlock value None) =
       if Js.truthy_string value
       then Fin (inject_Z (Z.of_nat (List.length lines)) * 20
                 + codePadding (spacing th) * 2 + gap (spacing th))
       else Fin (30 + gap (spacing th)).
Proof.
  assert (Ht : tokenizeCode Highlighter initHighlighter codeToTokens
                 (Js.or_string (content (codeBlock value None)) "")
                 (language (codeBlock value None)) mode
               = Returns (plainTokens value)).
  { cbn [content language codeBlock]. now rewrite or_string_empty. }
  destruct (renderCodeBlock_of_tokens Highlighter initHighlighter
              codeToTokens _ th mode _ Ht) as [lines [H1 [H2 _]]].
  exists lines. split; [exact H1|].
  unfold plainTokens in H2. rewrite length_map in H2. split; [exact H2|].
  unfold blockHeight. cbv zeta.
  cbn [type content codeBlock String.eqb Ascii.eqb Bool.eqb andb].
  destruct value as [|c v]; cbn [Js.truthy_string]; [reflexivity|].
  rewrite or_string_empty, H2. reflexivity.
Qed.

(* ================================================================== *)
(** ** The cached highlighter *)

(** X16.  The highlighter of a theme is created at most once: after a call
    of [initHighlighter] for a theme, a further call for that theme returns
    the same outcome and leaves the cache as it is without calling the
    constructor, also when the first creation failed; and a call for one
    theme leaves the other theme's cache entries alone. *)
Theorem highlighter_is_created_once (H : Type)
  (create create' : list string -> list string -> Outcome H)
  (st : Cache.State H) (m : ThemeMode) :
  let (st1, r1) := Cache.initHighlighter create st m in
  Cache.initHighlighter create' st1 m = (st1, r1)
  /\ match m with
     | light =>
         Cache.highlighterDark st1 = Cache.highlighterDark st
         /\ Cache.highlighterDarkPromise st1 = Cache.highlighterDarkPromise st
     | dark =>
         Cache.highlighterLight st1 = Cache.highlighterLight st
         /\ Cache.highlighterLightPromise st1
            = Cache.highlighterLightPromise st
     end.
Proof.
  destruct st as [hl hd pl pd], m; unfold Cache.initHighlighter;
    cbn [Cache.highlighterLight Cache.highlighterDark
           Cache.highlighterLightPromise Cache.highlighterDarkPromise].
  - destruct hl as [h|]; [cbn; auto|].
    destruct pl as [p|]; [cbn; auto|].
    destruct (create ["github-light"] Cache.langs); cbn; auto.
  - destruct hd as [h|]; [cbn; auto|].
    destruct pd as [p|]; [cbn; auto|].
    destruct (create ["github-dark"] Cache.langs); cbn; auto.
Qed.

(* ================================================================== *)
(** ** Fonts *)

Lemma satoriWeight_hundreds (w : option Q) :
  100 <= Fonts.satoriWeight w <= 900 /\ Fonts.satoriWeight w mod 100 = 0.
Proof.
  unfold Fonts.satoriWeight. destruct w as [v|]; [|split; [lia|reflexivity]].
  destruct (Qeq_bool v 0); [split; [lia|reflexivity]|].
  generalize (Fonts.round (v / 100)). intro r. split; [lia|].
  destruct (Z.le_gt_cases (r * 100) 900) as [H9|H9];
    destruct (Z.le_gt_cases 100 (r * 100)) as [H1|H1].
  - replace (Z.max 100 (Z.min 900 (r * 100))) with (r * 100) by lia.
    apply Z.mod_mul. discriminate.
  - replace (Z.max 100 (Z.min 900 (r * 100))) with 100 by lia. reflexivity.
  - replace (Z.max 100 (Z.min 900 (r * 100))) with 900 by lia. reflexivity.
  - lia.
Qed.

(** X17.  The weight [loadFont] hands on is a multiple of 100 from 100 to 900;
    for a configured weight from 100 to 900 it is the nearest hundred (within
    50, halves upwards); with no weight or the weight 0 it is 400. *)
Theorem font_weight_is_rounded_to_hundreds (w : option Q) :
  (100 <= Fonts.satoriWeight w <= 900 /\ Fonts.satoriWeight w mod 100 = 0)
  /\ (forall v,
        w = Some v -> (100 <= v)%Q -> (v <= 900)%Q ->
        (inject_Z (Fonts.satoriWeight w) - 50 <= v)%Q
        /\ (v < inject_Z (Fonts.satoriWeight w) + 50)%Q)
  /\ (w = None \/ (exists v, w = Some v /\ (v == 0)%Q) ->
      Fonts.satoriWeight w = 400).
Proof.
  split; [apply satoriWeight_hundreds|]. split.
  - intros v -> Hlo Hhi. unfold Fonts.satoriWeight.
    destruct (Qeq_bool v 0) eqn:E; [apply Qeq_bool_eq in E; lra|].
    unfold Fonts.round.
    pose proof (Qfloor_le (v / 100 + (1 # 2))) as Hf.
    pose proof (Qlt_floor (v / 100 + (1 # 2))) as Hc.
    rewrite inject_Z_plus in Hc. change (inject_Z 1) with 1%Q in Hc.
    assert (Hv : (v / 100 * 100 == v)%Q) by field.
    revert Hf Hc Hv. generalize (v / 100)%Q. intros q Hf Hc Hv.
    revert Hf Hc. generalize (Qfloor (q + (1 # 2))). intros r Hf Hc.
    assert (A : (inject_Z r * 100 - 50 <= v)%Q) by lra.
    assert (B : (v < inject_Z r * 100 + 50)%Q) by lra.
    assert (R1 : 1 <= r).
    { apply Z.lt_pred_le. cbn. rewrite Zlt_Qlt.
      change (inject_Z 0) with 0%Q. lra. }
    assert (R9 : r <= 9).
    { apply Z.lt_succ_r. cbn. rewrite Zlt_Qlt.
      change (inject_Z 10) with 10%Q. lra. }
    replace (Z.max 100 (Z.min 900 (r * 100))) with (r * 100) by lia.
    rewrite inject_Z_mult. change (inject_Z 100) with 100%Q. split; lra.
  - intros [-> | [v [-> Hv]]]; [reflexivity|].
    unfold Fonts.satoriWeight. now rewrite (Qeq_eq_bool _ _ Hv).
Qed.

Lemma font_weight_is_rounded_to_hundreds_witness :
  Fonts.satoriWeight (Some 650%Q) = 700
  /\ Fonts.satoriWeight (Some 0%Q) = 400.
Proof.
  destruct (font_weight_is_rounded_to_hundreds (Some 0%Q)) as [_ [_ H0]].
  split; [reflexivity|].
  apply H0. right. exists 0%Q. split; reflexivity.
Defined.

Lemma spread_spread {A : Type} (a b : option A) :
  spread (spread a b) b = spread a b.
Proof. now destruct a, b. Qed.

(** X18.  Normalising a font setting against a fallback, and the result again
    against the same fallback, changes nothing more; an empty path string is
    taken for no setting and gives the fallback. *)
Theorem normalizeFontConfig_idempotent (input : option Fonts.FontInput)
  (fallback : Fonts.FontConfig) :
  Fonts.normalizeFontConfig
    (Some (Fonts.FConfig (Fonts.normalizeFontConfig input fallback)))
    fallback
  = Fonts.normalizeFontConfig input fallback
  /\ Fonts.normalizeFontConfig (Some (Fonts.FPath "")) fallback = fallback.
Proof.
  split; [|reflexivity].
  destruct fallback as [p n w s].
  destruct input as [[q|[p' n' w' s']]|]; cbn.
  - destruct (Js.truthy_string q); cbn;
      now destruct n, w, s.
  - now rewrite !spread_spread.
  - now destruct n, w, s.
Qed.

Section FontLoading.

Variable Buffer : Type.
Variable readFileSync : string -> Outcome Buffer.

Lemma tryLocal_weights font loaded :
  Forall (fun f : Fonts.LoadedFont Buffer =>
            100 <= Fonts.lf_weight f <= 900 /\ Fonts.lf_weight f mod 100 = 0)
         loaded ->
  Forall (fun f : Fonts.LoadedFont Buffer =>
            100 <= Fonts.lf_weight f <= 900 /\ Fonts.lf_weight f mod 100 = 0)
         (Fonts.tryLocal Buffer readFileSync font loaded).
Proof.
  intro H. unfold Fonts.tryLocal, Fonts.loadFont.
  destruct (Js.truthy_string (Fonts.path font)); [|exact H].
  destruct (readFileSync (Fonts.path font)); cbn [bind]; [|exact H].
  apply Forall_app. split; [exact H|]. constructor; [|constructor].
  apply satoriWeight_hundreds.
Qed.

Lemma tryLocal_keeps font (loaded : list (Fonts.LoadedFont Buffer)) :
  loaded <> [] -> Fonts.tryLocal Buffer readFileSync font loaded <> [].
Proof.
  intro H. unfold Fonts.tryLocal.
  destruct (Js.truthy_string (Fonts.path font)); [|exact H].
  destruct (Fonts.loadFont Buffer readFileSync font); [|exact H].
  destruct loaded; [contradiction | discriminate].
Qed.

End FontLoading.

(** X19.  [loadFontsForSatori] never returns an empty list, and every font
    it returns has a weight that is a multiple of 100 from 100 to 900.  When
    it throws, the error is the one saying that no fonts are available, and
    no local font had been loaded. *)
Theorem fonts_loaded_or_no_fonts_error (Buffer : Type)
  (readFileSync : string -> Outcome Buffer)
  (fetch : string -> Outcome (Fonts.Response Buffer))
  (body heading code : Fonts.FontConfig) :
  match Fonts.loadFontsForSatori Buffer readFileSync fetch body heading code
  with
  | Returns fonts =>
      fonts <> []
      /\ Forall (fun f =>
                   100 <= Fonts.lf_weight f <= 900
                   /\ Fonts.lf_weight f mod 100 = 0) fonts
  | Throws e =>
      e = Fonts.noFonts
      /\ Fonts.tryLocal Buffer readFileSync code
           (Fonts.tryLocal Buffer readFileSync heading
              (Fonts.tryLocal Buffer readFileSync body [])) = []
  end.
Proof.
  unfold Fonts.loadFontsForSatori.
  pose proof (tryLocal_weights Buffer readFileSync code _
                (tryLocal_weights Buffer readFileSync heading _
                   (tryLocal_weights Buffer readFileSync body []
                      (Forall_nil _)))) as Hw.
  destruct (Fonts.tryLocal Buffer readFileSync code _) as [|f fs].
  - unfold Fonts.pushRoboto, Fonts.loadFontFromUrl.
    repeat match goal with
           | |- context [fetch ?u] =>
               destruct (fetch u) as [[[|] ?]|?]; cbn
           end;
      repeat split; try discriminate;
      repeat (constructor; try (cbn; lia); try reflexivity).
  - split; [discriminate | exact Hw].
Qed.

(** X20.  When the body font has a path and its file can be read, the result
    does not depend on the network: it is a list headed by that font, with
    the file's data and the configured name (or "Font"). *)
Theorem local_font_skips_network (Buffer : Type)
  (readFileSync : string -> Outcome Buffer)
  (fetch fetch' : string -> Outcome (Fonts.Response Buffer))
  (body heading code : Fonts.FontConfig) (data : Buffer) :
  Js.truthy_string (Fonts.path body) = true ->
  readFileSync (Fonts.path body) = Returns data ->
  Fonts.loadFontsForSatori Buffer readFileSync fetch body heading code
  = Fonts.loadFontsForSatori Buffer readFileSync fetch' body heading code
  /\ exists first rest,
       Fonts.loadFontsForSatori Buffer readFileSync fetch body heading code
       = Returns (first :: rest)
       /\ Fonts.lf_data first = data
       /\ Fonts.lf_name first = Js.or_string (Fonts.name body) "Font".
Proof.
  intros Hp Hr. unfold Fonts.loadFontsForSatori.
  assert (Hb : Fonts.tryLocal Buffer readFileSync body [] =
               [Fonts.mkLoaded (Js.or_string (Fonts.name body) "Font") data
                  (Fonts.satoriWeight (Fonts.weight body))
                  (the Fonts.normal (Fonts.style body))]).
  { unfold Fonts.tryLocal, Fonts.loadFont. now rewrite Hp, Hr. }
  rewrite Hb.
  set (first := Fonts.mkLoaded _ _ _ _).
  assert (Hh : exists r1, Fonts.tryLocal Buffer readFileSync heading [first]
                          = first :: r1).
  { unfold Fonts.tryLocal.
    destruct (Js.truthy_string (Fonts.path heading)); [|now exists []].
    destruct (Fonts.loadFont _ _ _); eexists; reflexivity. }
  destruct Hh as [r1 ->].
  assert (Hc : exists r2, Fonts.tryLocal Buffer readFileSync code (first :: r1)
                          = first :: r2).
  { unfold Fonts.tryLocal.
    destruct (Js.truthy_string (Fonts.path code)); [|now exists r1].
    destruct (Fonts.loadFont _ _ _); eexists; reflexivity. }
  destruct Hc as [r2 ->].
  split; [reflexivity|]. exists first, r2. repeat split.
Qed.

Lemma local_font_skips_network_witness :
  Fonts.loadFontsForSatori string
    (fun p => if (p =? "Inter.ttf")%string then Returns "bytes"
              else Throws "ENOENT")
    (fun _ => Throws "offline")
    (Fonts.mkConfig "Inter.ttf" (Some "Inter") (Some 400%Q) None)
    (Fonts.mkConfig "" (Some "Inter") (Some 700%Q) None)
    (Fonts.mkConfig "Missing.ttf" None None None)
  = Fonts.loadFontsForSatori string
      (fun p => if (p =? "Inter.ttf")%string then Returns "bytes"
                else Throws "ENOENT")
      (fun _ => Returns (Fonts.mkResponse true "roboto"))
      (Fonts.mkConfig "Inter.ttf" (Some "Inter") (Some 400%Q) None)
      (Fonts.mkConfig "" (Some "Inter") (Some 700%Q) None)
      (Fonts.mkConfig "Missing.ttf" None None None).
Proof.
  apply (local_font_skips_network string
           (fun p => if (p =? "Inter.ttf")%string then Returns "bytes"
                     else Throws "ENOENT")
           (fun _ => Throws "offline")
           (fun _ => Returns (Fonts.mkResponse true "roboto"))
           (Fonts.mkConfig "Inter.ttf" (Some "Inter") (Some 400%Q) None)
           (Fonts.mkConfig "" (Some "Inter") (Some 700%Q) None)
           (Fonts.mkConfig "Missing.ttf" None None None) "bytes");
    reflexivity.
Defined.

(* ================================================================== *)
(** ** The estimate is flat *)

Lemma blockHeight_outline th w (b b' : NormalizedBlock) :
  sameOutline b b' -> blockHeight th w b = blockHeight th w b'.
Proof.
  intros [Ht [Hc [Hl Hn]]]. unfold blockHeight, textLength.
  rewrite Ht, Hc, Hl.
  destruct (children b) as [cs|], (children b') as [cs'|];
    cbn [option_map] in Hn; try discriminate; [|reflexivity].
  injection Hn as Hn. now rewrite Hn.
Qed.

(** X8.  The estimate is flat: two forests whose top-level blocks agree in
    kind, content, level and number of children get the same estimate and
    the same height, whatever the children are. *)
Theorem estimate_ignores_nested_content th w wm
  (blocks blocks' : list NormalizedBlock) :
  Forall2 sameOutline blocks blocks' ->
  estimatedHeight th w wm blocks = estimatedHeight th w wm blocks'
  /\ autoHeight th w wm blocks = autoHeight th w wm blocks'.
Proof.
  intro H.
  assert (E : estimatedHeight th w wm blocks
              = estimatedHeight th w wm blocks').
  { unfold estimatedHeight. f_equal.
    generalize (Fin (padding (spacing th) * 2)).
    induction H as [|b b' r r' Hb _ IH]; intro acc; cbn [fold_left];
      [reflexivity|].
    now rewrite (blockHeight_outline th w b b' Hb), IH. }
  split; [exact E|]. unfold autoHeight. now rewrite E.
Qed.

Lemma estimate_ignores_nested_content_witness :
  autoHeight lightTheme 1120 None
    (normalizeAST
       (root [node "blockquote"
                [fenced None "a long code block"; heading 1 [txt "Title"];
                 para [txt "and more"]]]))
  = autoHeight lightTheme 1120 None
      (normalizeAST (root [node "blockquote" [node "thematicBreak" [];
                                              node "thematicBreak" [];
                                              node "thematicBreak" []]])).
Proof.
  apply (estimate_ignores_nested_content lightTheme 1120 None).
  constructor; [|constructor]. repeat split.
Defined.
